(** * TodoList: the task list and its usage analytics (src/src/App.tsx)

    A shallow embedding of the [App] component: its two persisted records
    (the task list and the analytics counters), the event handlers that
    update them, the session-start effect, and the derived metrics of the
    analytics screen.

    Conventions of the embedding.
    - A TypeScript [number] that holds a counter, an id or a millisecond
      clock reading is an integer-valued IEEE-754 double; it is embedded as
      its value in [Z] (exact as long as magnitudes stay below 2^53).
    - Where the source leaves the integers (the [/], [*] and [%] of the
      derived metrics), the arithmetic is binary64 with round-to-nearest-even,
      taken from the Standard Library's [SpecFloat] with [prec = 53] and
      [emax = 1024].
    - A JavaScript string typed by the user is a sequence of UTF-16 code
      units; the strings the component builds from digits are [string].
    - [Date.now()] and [new Date()] are inputs: every clock reading is a
      parameter of the operation that performs it.
    - React state is explicit: a handler is a function from the committed
      state to the next one; a functional update [setAnalytics(prev => ...)]
      is threaded in program order. *)

From Stdlib Require Import ZArith NArith Ascii String SpecFloat Sorted.
From stdpp Require Import base tactics option list relations pretty.

Local Open Scope Z_scope.

(** ** JavaScript primitives *)

Module JS.

(** *** Strings: UTF-16 code units *)

Definition code_unit := N.
Definition jsstring := list code_unit.

(** The ASCII literal [s] as a JavaScript string. *)
Fixpoint lit (s : string) : jsstring :=
  match s with
  | EmptyString => []
  | String c r => N_of_ascii c :: lit r
  end.

(** ECMAScript WhiteSpace and LineTerminator code points, the characters
    [String.prototype.trim] strips: TAB, LF, VT, FF, CR, SP, NBSP, the
    Unicode space separators, LS, PS and the byte-order mark. *)
Definition is_white_space (c : code_unit) : bool :=
  ((9 <=? c) && (c <=? 13) || (c =? 32) || (c =? 160) || (c =? 5760)
   || (8192 <=? c) && (c <=? 8202) || (c =? 8232) || (c =? 8233)
   || (c =? 8239) || (c =? 8287) || (c =? 12288) || (c =? 65279))%N.

Fixpoint trimStart (s : jsstring) : jsstring :=
  match s with
  | [] => []
  | c :: r => if is_white_space c then trimStart r else s
  end.

Fixpoint trimEnd (s : jsstring) : jsstring :=
  match s with
  | [] => []
  | c :: r =>
      match trimEnd r with
      | [] => if is_white_space c then [] else [c]
      | r' => c :: r'
      end
  end.

(** [String.prototype.trim] *)
Definition trim (s : jsstring) : jsstring := trimEnd (trimStart s).

(** *** Numbers: binary64 *)

Definition prec : Z := 53.
Definition emax : Z := 1024.

(** The double nearest to the integer [z]; exact for [|z| <= 2^53]. *)
Definition num (z : Z) : spec_float := binary_normalize prec emax z 0 false.

Definition div : spec_float -> spec_float -> spec_float := SFdiv prec emax.
Definition mul : spec_float -> spec_float -> spec_float := SFmul prec emax.

(** The [%] operator: the remainder of the truncating division, computed
    exactly, with the sign of the dividend. *)
Definition rem (x y : spec_float) : spec_float :=
  match x, y with
  | S754_nan, _ | _, S754_nan => S754_nan
  | S754_infinity _, _ => S754_nan
  | _, S754_zero _ => S754_nan
  | _, S754_infinity _ => x
  | S754_zero _, _ => x
  | S754_finite sx mx ex, S754_finite _ my ey =>
      let e := Z.min ex ey in
      let X := Z.shiftl (Zpos mx) (ex - e) in
      let Y := Z.shiftl (Zpos my) (ey - e) in
      binary_normalize prec emax (cond_Zopp sx (Z.rem X Y)) e sx
  end.

(** An integral Number, as [Math.floor] and [Math.round] return it. Its
    finite values are kept as their exact integer; minus zero, which prints
    and displays as [0], is [Int 0]. *)
Inductive integral :=
  | Int (z : Z)
  | Infinity (negative : bool)
  | NaN.

(** [Math.floor] *)
Definition Math_floor (x : spec_float) : integral :=
  match x with
  | S754_nan => NaN
  | S754_infinity s => Infinity s
  | S754_zero _ => Int 0
  | S754_finite s m e =>
      let v := cond_Zopp s (Zpos m) in
      Int (if 0 <=? e then Z.shiftl v e else Z.shiftr v (- e))
  end.

(** [Math.round]: the nearest integer, a tie going towards plus infinity,
    that is the floor of [x + 1/2] taken exactly. *)
Definition Math_round (x : spec_float) : integral :=
  match x with
  | S754_nan => NaN
  | S754_infinity s => Infinity s
  | S754_zero _ => Int 0
  | S754_finite s m e =>
      let v := cond_Zopp s (Zpos m) in
      Int (if 0 <=? e then Z.shiftl v e
           else Z.shiftr (2 * v + Z.shiftl 1 (- e)) (- e + 1))
  end.

(** Number-to-string conversion of an integral Number, as a template
    literal performs it (decimal digits, for integers in the exact range). *)
Definition toString (x : integral) : string :=
  match x with
  | Int z => pretty z
  | Infinity false => "Infinity"
  | Infinity true => "-Infinity"
  | NaN => "NaN"
  end.

End JS.

(** ** Data model *)

(** [interface Todo] *)
Record Todo := mkTodo {
  id : Z;
  text : JS.jsstring;
  completed : bool;
  createdAt : Z
}.

(** [interface Analytics] *)
Record Analytics := mkAnalytics {
  totalVisitors : Z;
  pageViews : Z;
  sessionStart : Z;
  lastVisit : Z;
  todosCreated : Z;
  todosCompleted : Z;
  todosDeleted : Z;
  sessionsCount : Z
}.

(** [type FilterType = 'all' | 'active' | 'completed'] *)
Inductive FilterType := All | Active | Completed.

(** The component's state, one field per [useState]. *)
Record State := mkState {
  todos : list Todo;
  inputValue : JS.jsstring;
  filter : FilterType;
  showAnalytics : bool;
  analytics : Analytics
}.

(** What [localStorage] holds under the keys ["todos"] and ["analytics"],
    after [JSON.parse]; [None] when [getItem] returns [null]. Dates are
    kept as their millisecond value, which the ISO-8601 text written by
    [JSON.stringify] and read back by [new Date] preserves. *)
Record Storage := mkStorage {
  savedTodos : option (list Todo);
  savedAnalytics : option Analytics
}.

(** ** The component *)

(** The initial value of the [analytics] state; [t] is the clock reading of
    [sessionStart: Date.now()] in the first render. *)
Definition initialAnalytics (t : Z) : Analytics :=
  {| totalVisitors := 0; pageViews := 0; sessionStart := t; lastVisit := 0;
     todosCreated := 0; todosCompleted := 0; todosDeleted := 0;
     sessionsCount := 0 |}.

Definition initialState (t : Z) : State :=
  {| todos := []; inputValue := []; filter := All; showAnalytics := false;
     analytics := initialAnalytics t |}.

Definition oneDayMs : Z := 24 * 60 * 60 * 1000.

(** The analytics initialization of the mount effect (lines 50 to 75): [now]
    is the effect's own [Date.now()], [saved] the parsed ["analytics"] item
    and [prev] the state the functional update of the else-branch receives. *)
Definition analyticsInitialization
    (now : Z) (saved : option Analytics) (prev : Analytics) : Analytics :=
  match saved with
  | Some parsedAnalytics =>
      let isNewVisitor := now - lastVisit parsedAnalytics >? oneDayMs in
      {| totalVisitors :=
           if isNewVisitor then totalVisitors parsedAnalytics + 1
           else totalVisitors parsedAnalytics;
         pageViews := pageViews parsedAnalytics + 1;
         sessionStart := now;
         lastVisit := now;
         todosCreated := todosCreated parsedAnalytics;
         todosCompleted := todosCompleted parsedAnalytics;
         todosDeleted := todosDeleted parsedAnalytics;
         sessionsCount := sessionsCount parsedAnalytics + 1 |}
  | None =>
      {| totalVisitors := 1;
         pageViews := 1;
         sessionStart := sessionStart prev;
         lastVisit := now;
         todosCreated := todosCreated prev;
         todosCompleted := todosCompleted prev;
         todosDeleted := todosDeleted prev;
         sessionsCount := 1 |}
  end.

(** The mount effect (lines 40 to 85) on the state of the first render. *)
Definition mountEffect (now : Z) (store : Storage) (st : State) : State :=
  {| todos := match savedTodos store with
              | Some parsedTodos => parsedTodos
              | None => todos st
              end;
     inputValue := inputValue st;
     filter := filter st;
     showAnalytics := showAnalytics st;
     analytics := analyticsInitialization now (savedAnalytics store)
                    (analytics st) |}.

(** A page load: the first render reads the clock at [tRender] for the
    initial state, then the mount effect reads it again at [now]. *)
Definition pageLoad (tRender now : Z) (store : Storage) : State :=
  mountEffect now store (initialState tRender).

(** The two save effects (lines 88 to 95): the committed state is written
    back whole. *)
Definition persist (st : State) : Storage :=
  {| savedTodos := Some (todos st); savedAnalytics := Some (analytics st) |}.

(** [addTodo] (lines 97 to 112); [tId] is the reading of [Date.now()] and
    [tCreated] that of [new Date()]. *)
Definition addTodo (tId tCreated : Z) (st : State) : State :=
  match JS.trim (inputValue st) with
  | [] => st
  | trimmed =>
      let newTodo :=
        {| id := tId; text := trimmed; completed := false;
           createdAt := tCreated |} in
      let prev := analytics st in
      {| todos := todos st ++ [newTodo];
         inputValue := [];
         filter := filter st;
         showAnalytics := showAnalytics st;
         analytics :=
           {| totalVisitors := totalVisitors prev;
              pageViews := pageViews prev;
              sessionStart := sessionStart prev;
              lastVisit := lastVisit prev;
              todosCreated := todosCreated prev + 1;
              todosCompleted := todosCompleted prev;
              todosDeleted := todosDeleted prev;
              sessionsCount := sessionsCount prev |} |}
  end.

(** The update [prev => ({...prev, todosCompleted: prev.todosCompleted + 1})]. *)
Definition incrTodosCompleted (prev : Analytics) : Analytics :=
  {| totalVisitors := totalVisitors prev;
     pageViews := pageViews prev;
     sessionStart := sessionStart prev;
     lastVisit := lastVisit prev;
     todosCreated := todosCreated prev;
     todosCompleted := todosCompleted prev + 1;
     todosDeleted := todosDeleted prev;
     sessionsCount := sessionsCount prev |}.

(** The callback of [todos.map] in [toggleTodo]: it returns the new element
    and, as its side effect, queues one analytics update for an incomplete
    task with the given id. The analytics record is passed through. *)
Definition toggleOne (i : Z) (todo : Todo) (a : Analytics) : Todo * Analytics :=
  if id todo =? i then
    ({| id := id todo; text := text todo;
        completed := negb (completed todo); createdAt := createdAt todo |},
     if negb (completed todo) then incrTodosCompleted a else a)
  else (todo, a).

(** [todos.map(...)] with that callback, left to right. *)
Fixpoint toggleMap (i : Z) (l : list Todo) (a : Analytics)
    : list Todo * Analytics :=
  match l with
  | [] => ([], a)
  | todo :: rest =>
      let '(todo', a1) := toggleOne i todo a in
      let '(rest', a2) := toggleMap i rest a1 in
      (todo' :: rest', a2)
  end.

(** [toggleTodo] (lines 114 to 127) *)
Definition toggleTodo (i : Z) (st : State) : State :=
  let '(todos', analytics') := toggleMap i (todos st) (analytics st) in
  {| todos := todos'; inputValue := inputValue st; filter := filter st;
     showAnalytics := showAnalytics st; analytics := analytics' |}.

(** [deleteTodo] (lines 129 to 135) *)
Definition deleteTodo (i : Z) (st : State) : State :=
  let prev := analytics st in
  {| todos := List.filter (fun todo => negb (id todo =? i)) (todos st);
     inputValue := inputValue st;
     filter := filter st;
     showAnalytics := showAnalytics st;
     analytics :=
       {| totalVisitors := totalVisitors prev;
          pageViews := pageViews prev;
          sessionStart := sessionStart prev;
          lastVisit := lastVisit prev;
          todosCreated := todosCreated prev;
          todosCompleted := todosCompleted prev;
          todosDeleted := todosDeleted prev + 1;
          sessionsCount := sessionsCount prev |} |}.

(** The callback of [filteredTodos] (lines 137 to 141). *)
Definition filterCallback (f : FilterType) (todo : Todo) : bool :=
  match f with
  | Active => negb (completed todo)
  | Completed => completed todo
  | All => true
  end.

Definition filteredTodos (st : State) : list Todo :=
  List.filter (filterCallback (filter st)) (todos st).

(** [getAverageSessionDuration] (lines 150 to 156); [now] is the reading of
    [Date.now()]. *)
Definition getAverageSessionDuration (now : Z) (a : Analytics) : string :=
  if sessionsCount a =? 0 then "0m 0s"
  else
    let avgDuration :=
      JS.div (JS.num (now - sessionStart a)) (JS.num (sessionsCount a)) in
    let minutes := JS.Math_floor (JS.div avgDuration (JS.num 60000)) in
    let seconds :=
      JS.Math_floor
        (JS.div (JS.rem avgDuration (JS.num 60000)) (JS.num 1000)) in
    JS.toString minutes +:+ "m " +:+ JS.toString seconds +:+ "s".

(** The number shown as "Completion Rate" (lines 228 to 230). *)
Definition completionRate (a : Analytics) : JS.integral :=
  if todosCreated a >? 0 then
    JS.Math_round
      (JS.mul (JS.div (JS.num (todosCompleted a)) (JS.num (todosCreated a)))
              (JS.num 100))
  else JS.Int 0.

(** The field setters bound to the controls (lines 265, 283, 169 and 351). *)
Definition setInputValue (v : JS.jsstring) (st : State) : State :=
  {| todos := todos st; inputValue := v; filter := filter st;
     showAnalytics := showAnalytics st; analytics := analytics st |}.

Definition setFilter (f : FilterType) (st : State) : State :=
  {| todos := todos st; inputValue := inputValue st; filter := f;
     showAnalytics := showAnalytics st; analytics := analytics st |}.

Definition setShowAnalytics (b : bool) (st : State) : State :=
  {| todos := todos st; inputValue := inputValue st; filter := filter st;
     showAnalytics := b; analytics := analytics st |}.

(** ** The component as a state machine *)

(** The user events the view binds to handlers. *)
Inductive Event :=
  | Change (value : JS.jsstring)
  | AddTodo (tId tCreated : Z)
  | ToggleTodo (i : Z)
  | DeleteTodo (i : Z)
  | SetFilter (f : FilterType)
  | SetShowAnalytics (b : bool).

Definition handle (ev : Event) (st : State) : State :=
  match ev with
  | Change v => setInputValue v st
  | AddTodo tId tCreated => addTodo tId tCreated st
  | ToggleTodo i => toggleTodo i st
  | DeleteTodo i => deleteTodo i st
  | SetFilter f => setFilter f st
  | SetShowAnalytics b => setShowAnalytics b st
  end.

(** Events handled one after the other, each on the state the previous one
    committed. *)
Definition run (evs : list Event) (st : State) : State :=
  fold_left (fun s ev => handle ev s) evs st.

(** One step in the life of the analytics record: an event of the running
    page, or a page load that takes over the record the previous session
    left in storage (the fresh record of the first render when there is
    none). *)
Inductive record_step : Analytics -> Analytics -> Prop :=
  | step_event ev st :
      record_step (analytics st) (analytics (handle ev st))
  | step_load_saved tRender now store parsedAnalytics :
      savedAnalytics store = Some parsedAnalytics ->
      record_step parsedAnalytics (analytics (pageLoad tRender now store))
  | step_load_fresh tRender now store :
      savedAnalytics store = None ->
      record_step (initialAnalytics tRender)
                  (analytics (pageLoad tRender now store)).

(** Every counter of [b] is at least the one of [a]. *)
Definition counters_le (a b : Analytics) : Prop :=
  totalVisitors a <= totalVisitors b /\
  pageViews a <= pageViews b /\
  todosCreated a <= todosCreated b /\
  todosCompleted a <= todosCompleted b /\
  todosDeleted a <= todosDeleted b /\
  sessionsCount a <= sessionsCount b.

(** ** Vocabulary of the statements *)

(** The callback [todo => todo.id === i]. *)
Definition hasId (i : Z) (todo : Todo) : bool := id todo =? i.

(** What [toggleTodo] makes of one element: the completed flag flipped when
    the id matches. *)
Definition toggled (i : Z) (todo : Todo) : Todo :=
  if id todo =? i then
    {| id := id todo; text := text todo; completed := negb (completed todo);
       createdAt := createdAt todo |}
  else todo.

(** The analytics record with [n] added to [todosCompleted]. *)
Definition bump (n : nat) (a : Analytics) : Analytics :=
  {| totalVisitors := totalVisitors a;
     pageViews := pageViews a;
     sessionStart := sessionStart a;
     lastVisit := lastVisit a;
     todosCreated := todosCreated a;
     todosCompleted := todosCompleted a + Z.of_nat n;
     todosDeleted := todosDeleted a;
     sessionsCount := sessionsCount a |}.

(** An incomplete, respectively complete, task with the id [i]. *)
Definition isOpen (i : Z) (todo : Todo) : bool :=
  hasId i todo && negb (completed todo).

Definition isDone (i : Z) (todo : Todo) : bool :=
  hasId i todo && completed todo.

(** The number of elements of [l] that [p] accepts. *)
Definition countIf (p : Todo -> bool) (l : list Todo) : nat :=
  length (List.filter p l).

(** [r] holds exactly the elements of [l] that satisfy [P], in the order of
    [l]: it is a subsequence of [l], made of such elements only, and no
    subsequence of [l] made of such elements misses from it. *)
Definition exactly_in_order (P : Todo -> Prop) (l r : list Todo) : Prop :=
  r `sublist_of` l /\
  Forall P r /\
  forall r', r' `sublist_of` l -> Forall P r' -> r' `sublist_of` r.

(** [getAverageSessionDuration] with every division checked: [None] as soon
    as a divisor is zero. *)
Definition checkedDiv (x : spec_float) (d : Z) : option spec_float :=
  if d =? 0 then None else Some (JS.div x (JS.num d)).

Definition getAverageSessionDuration_checked (now : Z) (a : Analytics)
    : option string :=
  if sessionsCount a =? 0 then Some "0m 0s"
  else
    avgDuration ← checkedDiv (JS.num (now - sessionStart a)) (sessionsCount a);
    q ← checkedDiv avgDuration 60000;
    r ← checkedDiv (JS.rem avgDuration (JS.num 60000)) 1000;
    Some (JS.toString (JS.Math_floor q) +:+ "m "
          +:+ JS.toString (JS.Math_floor r) +:+ "s").

(** Exact rounding of the fraction [100 * c / t] to the nearest integer, a
    tie going up; for comparison with the binary64 computation. *)
Definition exactRate (c t : Z) : Z := (200 * c + t) / (2 * t).

(** The analytics record with the given two task counters, the other fields
    at their initial value. *)
Definition withTasks (done created : Z) : Analytics :=
  {| totalVisitors := 0; pageViews := 0; sessionStart := 0; lastVisit := 0;
     todosCreated := created; todosCompleted := done; todosDeleted := 0;
     sessionsCount := 0 |}.

(** Whether the displayed rate is the exactly rounded one for every
    [done <= created]. *)
Definition rateIsExact (created : Z) : bool :=
  forallb
    (fun done =>
       match completionRate (withTasks done created) with
       | JS.Int z => z =? exactRate done created
       | _ => false
       end)
    (map Z.of_nat (seq 0 (S (Z.to_nat created)))).

(** ** The rest of the component *)

(** [getSessionDuration] (lines 143 to 148); [now] is the reading of
    [Date.now()]. *)
Definition getSessionDuration (now : Z) (a : Analytics) : string :=
  let duration := JS.num (now - sessionStart a) in
  let minutes := JS.Math_floor (JS.div duration (JS.num 60000)) in
  let seconds :=
    JS.Math_floor (JS.div (JS.rem duration (JS.num 60000)) (JS.num 1000)) in
  JS.toString minutes +:+ "m " +:+ JS.toString seconds +:+ "s".

(** The two counts of lines 158 and 159. *)
Definition completedTodos (st : State) : nat :=
  length (List.filter (fun todo => completed todo) (todos st)).

Definition activeTodos (st : State) : nat :=
  length (List.filter (fun todo => negb (completed todo)) (todos st)).

(** The two save effects (lines 88 to 90 and 93 to 95), each on the state of
    the render it belongs to. *)
Definition saveTodos (st : State) (store : Storage) : Storage :=
  {| savedTodos := Some (todos st); savedAnalytics := savedAnalytics store |}.

Definition saveAnalytics (st : State) (store : Storage) : Storage :=
  {| savedTodos := savedTodos store; savedAnalytics := Some (analytics st) |}.

(** Mounting the component, effect by effect. After the first render the
    three effects run in the order of the source: the mount effect reads the
    storage and queues its state updates, then the two save effects write the
    state of the first render. The queued updates give the second render,
    after which the save effects whose dependency changed run again: the one
    of [todos] when [setTodos] was called, the one of [analytics] always. *)
Definition mount (tRender now : Z) (store : Storage) : State * Storage :=
  let st0 := initialState tRender in
  let st1 := mountEffect now store st0 in
  let store1 := saveAnalytics st0 (saveTodos st0 store) in
  let store2 :=
    match savedTodos store with
    | Some _ => saveTodos st1 store1
    | None => store1
    end in
  (st1, saveAnalytics st1 store2).

(** The states of the component over its life, from an empty storage: the
    first page load, the events of a page, and a later page load from what
    the page before left in storage. *)
Inductive reachable : State -> Prop :=
  | reach_first tRender now :
      reachable (pageLoad tRender now (mkStorage None None))
  | reach_event ev st :
      reachable st -> reachable (handle ev st)
  | reach_reload tRender now st :
      reachable st -> reachable (pageLoad tRender now (persist st)).

(** The ids of the task list, in order. *)
Definition ids (st : State) : list Z := map (fun todo => id todo) (todos st).

(** An event that can keep ids distinct: a task is added under an id no task
    of the list has. *)
Definition freshId (ev : Event) (st : State) : Prop :=
  match ev with
  | AddTodo tId _ => tId ∉ ids st
  | _ => True
  end.

(** A text as [addTodo] stores it: not empty, with no white space at either
    end. *)
Definition trimmedText (s : JS.jsstring) : Prop :=
  s <> [] /\
  (forall c r, s = c :: r -> JS.is_white_space c = false) /\
  (forall r c, s = r ++ [c] -> JS.is_white_space c = false).

(** The number of [DeleteTodo] events in a list of events. *)
Definition deletions (evs : list Event) : nat :=
  length (List.filter (fun ev => match ev with DeleteTodo _ => true | _ => false end) evs).

(** The visit counters as the component itself can have brought them about:
    page views and sessions are counted together, visitors at most as often,
    and no counter is negative. *)
Definition visitsConsistent (a : Analytics) : Prop :=
  pageViews a = sessionsCount a /\
  1 <= totalVisitors a <= sessionsCount a /\
  0 <= todosCreated a /\ 0 <= todosCompleted a /\ 0 <= todosDeleted a.

(** The task counters cover the task list: no more tasks than were created,
    no more completed tasks than completions were counted. *)
Definition tasksConsistent (st : State) : Prop :=
  Z.of_nat (length (todos st)) <= todosCreated (analytics st) /\
  Z.of_nat (completedTodos st) <= todosCompleted (analytics st).

(** An event under a clock that has moved on: a task is added under an id
    greater than every id of the list. *)
Definition laterId (ev : Event) (st : State) : Prop :=
  match ev with
  | AddTodo tId _ => Forall (fun i => i < tId) (ids st)
  | _ => True
  end.

(** ** Properties of the primitives *)

Section Trim.

Implicit Types (s : JS.jsstring) (c : JS.code_unit).

Lemma trimStart_nil_iff s :
  JS.trimStart s = [] <-> Forall (fun c => JS.is_white_space c = true) s.
Proof.
  induction s as [|c r IH]; simpl.
  - split; [constructor | reflexivity].
  - destruct (JS.is_white_space c) eqn:Hc.
    + rewrite IH. split.
      * intros Hr. constructor; assumption.
      * intros Hall. inversion Hall; assumption.
    + split; [discriminate|].
      intros Hall. inversion Hall; congruence.
Qed.

Lemma trimEnd_nil_iff s :
  JS.trimEnd s = [] <-> Forall (fun c => JS.is_white_space c = true) s.
Proof.
  induction s as [|c r IH]; simpl.
  - split; [constructor | reflexivity].
  - destruct (JS.trimEnd r) as [|c' r'] eqn:Hr.
    + destruct (JS.is_white_space c) eqn:Hc.
      * split; [|reflexivity]. intros _. constructor; [assumption|].
        apply IH. reflexivity.
      * split; [discriminate|]. intros Hall. inversion Hall; congruence.
    + split; [discriminate|]. intros Hall. inversion Hall as [|? ? _ Hall'].
      apply IH in Hall'. discriminate.
Qed.

Lemma trimStart_head s c r :
  JS.trimStart s = c :: r -> JS.is_white_space c = false.
Proof.
  induction s as [|c0 r0 IH]; simpl; [discriminate|].
  destruct (JS.is_white_space c0) eqn:Hc; [exact IH|].
  intros Heq. congruence.
Qed.

(** The trimmed form is empty exactly for the strings made of white space
    only (the empty string among them). *)
Lemma trim_nil_iff s :
  JS.trim s = [] <-> Forall (fun c => JS.is_white_space c = true) s.
Proof.
  unfold JS.trim. rewrite trimEnd_nil_iff. split.
  - intros Hall. apply trimStart_nil_iff.
    destruct (JS.trimStart s) as [|c r] eqn:Hs; [reflexivity|].
    apply trimStart_head in Hs. inversion Hall; congruence.
  - intros Hall. apply trimStart_nil_iff in Hall. rewrite Hall. constructor.
Qed.

End Trim.

Section Rounding.

Implicit Types (s : bool) (m : positive) (e n : Z).

(** A finite double with a non-negative exponent is an integer, and both
    roundings return it. *)
Lemma Math_floor_integer s m e :
  0 <= e ->
  JS.Math_floor (S754_finite s m e) = JS.Int (cond_Zopp s (Zpos m) * 2 ^ e) /\
  JS.Math_round (S754_finite s m e) = JS.Int (cond_Zopp s (Zpos m) * 2 ^ e).
Proof.
  intros He. unfold JS.Math_floor, JS.Math_round.
  destruct (Z.leb_spec 0 e) as [_|Hlt]; [|lia].
  rewrite Z.shiftl_mul_pow2 by exact He. split; reflexivity.
Qed.

(** Otherwise the double is [v / 2^(-e)] with [v] its signed mantissa, and
    [Math.floor] returns the integer [n] with [n <= v / 2^(-e) < n + 1]. *)
Lemma Math_floor_bounds s m e n :
  e < 0 -> JS.Math_floor (S754_finite s m e) = JS.Int n ->
  n * 2 ^ (- e) <= cond_Zopp s (Zpos m) < (n + 1) * 2 ^ (- e).
Proof.
  intros He. unfold JS.Math_floor.
  destruct (Z.leb_spec 0 e) as [Hle|_]; [lia|].
  intros Hn. injection Hn as <-. rewrite Z.shiftr_div_pow2 by lia.
  set (v := cond_Zopp s (Zpos m)). set (d := 2 ^ (- e)).
  assert (Hd : 0 < d) by (apply Z.pow_pos_nonneg; lia).
  pose proof (Z.div_mod v d ltac:(lia)) as Hdiv.
  pose proof (Z.mod_pos_bound v d Hd) as Hmod. nia.
Qed.

(** [Math.round] returns the integer [n] with
    [n - 1/2 <= v / 2^(-e) < n + 1/2]: a tie goes up. *)
Lemma Math_round_bounds s m e n :
  e < 0 -> JS.Math_round (S754_finite s m e) = JS.Int n ->
  (2 * n - 1) * 2 ^ (- e) <= 2 * cond_Zopp s (Zpos m)
    < (2 * n + 1) * 2 ^ (- e).
Proof.
  intros He. unfold JS.Math_round.
  destruct (Z.leb_spec 0 e) as [Hle|_]; [lia|].
  intros Hn. injection Hn as <-.
  rewrite Z.shiftr_div_pow2, Z.shiftl_1_l by lia.
  replace (- e + 1) with (Z.succ (- e)) by lia.
  rewrite Z.pow_succ_r by lia.
  set (v := cond_Zopp s (Zpos m)). set (d := 2 ^ (- e)).
  assert (Hd : 0 < d) by (apply Z.pow_pos_nonneg; lia).
  pose proof (Z.div_mod (2 * v + d) (2 * d) ltac:(lia)) as Hdiv.
  pose proof (Z.mod_pos_bound (2 * v + d) (2 * d) ltac:(lia)) as Hmod. nia.
Qed.

(** Ties and signs, on 2.5, -2.5, -0.5 and the largest double below 0.5. *)
Example Math_round_ties :
  JS.Math_round (JS.div (JS.num 5) (JS.num 2)) = JS.Int 3 /\
  JS.Math_round (JS.div (JS.num (-5)) (JS.num 2)) = JS.Int (-2) /\
  JS.Math_round (JS.div (JS.num (-1)) (JS.num 2)) = JS.Int 0 /\
  JS.Math_round (S754_finite false 9007199254740991 (-54)) = JS.Int 0.
Proof.
  vm_compute. repeat split.
Qed.

(** The remainder takes the sign of the dividend: 5.5 % 2 is 1.5 and
    -7 % 3 is -1. *)
Example rem_signs :
  JS.rem (JS.div (JS.num 11) (JS.num 2)) (JS.num 2)
    = JS.div (JS.num 3) (JS.num 2) /\
  JS.rem (JS.num (-7)) (JS.num 3) = JS.num (-1).
Proof.
  vm_compute. split; reflexivity.
Qed.

(** Integers are doubles up to 2^53; the next integer is not. *)
Example num_safe_range :
  JS.num (2 ^ 53) = S754_finite false 4503599627370496 1 /\
  JS.num (2 ^ 53 + 1) = JS.num (2 ^ 53) /\
  JS.num (2 ^ 53 - 1) = S754_finite false 9007199254740991 0.
Proof.
  vm_compute. repeat split.
Qed.

End Rounding.

(** ** Adding a task *)

(** C1. For every input whose trimmed form is non-empty, [addTodo] appends
    exactly one record to the end of the list, with [completed = false] and
    the trimmed text (so the length grows by exactly 1), and increments
    [todosCreated] by exactly 1; for every input whose trimmed form is empty,
    the task list and [todosCreated] are unchanged. *)
Theorem addTodo_appends_and_counts (tId tCreated : Z) (st : State) :
  (JS.trim (inputValue st) <> [] ->
     todos (addTodo tId tCreated st)
       = todos st ++ [ {| id := tId; text := JS.trim (inputValue st);
                          completed := false; createdAt := tCreated |} ] /\
     length (todos (addTodo tId tCreated st)) = S (length (todos st)) /\
     todosCreated (analytics (addTodo tId tCreated st))
       = todosCreated (analytics st) + 1) /\
  (JS.trim (inputValue st) = [] ->
     todos (addTodo tId tCreated st) = todos st /\
     todosCreated (analytics (addTodo tId tCreated st))
       = todosCreated (analytics st)).
Proof.
  unfold addTodo.
  destruct (JS.trim (inputValue st)) as [|c r] eqn:Htrim; split.
  - intros Hne. contradiction.
  - intros _. split; reflexivity.
  - intros _. cbn [todos analytics todosCreated].
    split; [reflexivity|]. split; [|reflexivity].
    rewrite length_app. cbn [length]. lia.
  - discriminate.
Qed.

Lemma addTodo_appends_and_counts_witness :
  let st := setInputValue (JS.lit "  Buy milk ") (initialState 7) in
  let blank := setInputValue (JS.lit "   ") st in
  (todos (addTodo 1000 1001 st)
     = [ {| id := 1000; text := JS.lit "Buy milk"; completed := false;
            createdAt := 1001 |} ] /\
   length (todos (addTodo 1000 1001 st)) = 1%nat /\
   todosCreated (analytics (addTodo 1000 1001 st)) = 1) /\
  (todos (addTodo 1000 1001 blank) = [] /\
   todosCreated (analytics (addTodo 1000 1001 blank)) = 0).
Proof.
  intros st blank. split.
  - apply (addTodo_appends_and_counts 1000 1001 st). vm_compute. discriminate.
  - apply (addTodo_appends_and_counts 1000 1001 blank). vm_compute. reflexivity.
Defined.

(** X21. An input made of white space only is ignored: the whole state
    stays as it is, the text in the input field included. *)
Lemma addTodo_blank tId tCreated st :
  Forall (fun c => JS.is_white_space c = true) (inputValue st) ->
  addTodo tId tCreated st = st.
Proof.
  intros Hall. apply trim_nil_iff in Hall. unfold addTodo. rewrite Hall.
  reflexivity.
Qed.

(** ** Toggling a task *)

Section Toggle.

Variable i : Z.

Implicit Types (todo : Todo) (l : list Todo) (a : Analytics) (st : State).

Lemma toggled_involutive todo : toggled i (toggled i todo) = todo.
Proof.
  unfold toggled. destruct todo as [n t c d]. cbn.
  destruct (n =? i) eqn:Hn; cbn; rewrite ?Hn; cbn; [|reflexivity].
  rewrite negb_involutive. reflexivity.
Qed.

Lemma isOpen_toggled todo : isOpen i (toggled i todo) = isDone i todo.
Proof.
  unfold isOpen, isDone, hasId, toggled. destruct todo as [n t c d].
  cbn. destruct (n =? i) eqn:Hn; cbn; rewrite Hn; cbn; [|reflexivity].
  apply negb_involutive.
Qed.

Lemma bump_bump n m a : bump n (bump m a) = bump (m + n) a.
Proof.
  unfold bump. cbn. f_equal. lia.
Qed.

Lemma bump_0 a : bump 0 a = a.
Proof.
  destruct a. unfold bump. cbn. f_equal. lia.
Qed.

Lemma toggleOne_eq todo a :
  toggleOne i todo a
    = (toggled i todo, bump (if isOpen i todo then 1 else 0) a).
Proof.
  unfold toggled, isOpen, hasId, toggleOne.
  destruct (id todo =? i); cbn [andb].
  - destruct (completed todo); cbn [negb].
    + rewrite bump_0. reflexivity.
    + unfold incrTodosCompleted, bump. reflexivity.
  - rewrite bump_0. reflexivity.
Qed.

(** The list [toggleMap] returns does not depend on the analytics record,
    and the record it returns has gained one per incomplete task with the
    id. *)
Lemma toggleMap_eq l a :
  toggleMap i l a = (map (toggled i) l, bump (countIf (isOpen i) l) a).
Proof.
  revert a. induction l as [|todo rest IH]; intros a.
  - cbn. rewrite bump_0. reflexivity.
  - cbn [toggleMap map]. rewrite toggleOne_eq, IH, bump_bump.
    unfold countIf. cbn [List.filter].
    destruct (isOpen i todo); reflexivity.
Qed.

Lemma countIf_isOpen_toggled l :
  countIf (isOpen i) (map (toggled i) l) = countIf (isDone i) l.
Proof.
  unfold countIf. induction l as [|todo rest IH]; [reflexivity|].
  cbn [map List.filter]. rewrite isOpen_toggled.
  destruct (isDone i todo); cbn [length]; congruence.
Qed.

Lemma countIf_isOpen_isDone l :
  (countIf (isOpen i) l + countIf (isDone i) l = countIf (hasId i) l)%nat.
Proof.
  unfold countIf. induction l as [|todo rest IH]; [reflexivity|].
  cbn [List.filter]. unfold isOpen at 1, isDone at 1.
  destruct (hasId i todo), (completed todo); cbn [andb negb length]; lia.
Qed.

Lemma toggleTodo_eq st :
  toggleTodo i st =
    {| todos := map (toggled i) (todos st); inputValue := inputValue st;
       filter := filter st; showAnalytics := showAnalytics st;
       analytics := bump (countIf (isOpen i) (todos st)) (analytics st) |}.
Proof.
  unfold toggleTodo. rewrite toggleMap_eq. reflexivity.
Qed.

(** One application changes [todosCompleted] only, and only upwards. *)
Lemma toggleTodo_analytics st :
  let a := analytics st in
  let a' := analytics (toggleTodo i st) in
  totalVisitors a' = totalVisitors a /\ pageViews a' = pageViews a /\
  sessionStart a' = sessionStart a /\ lastVisit a' = lastVisit a /\
  todosCreated a' = todosCreated a /\ todosCompleted a <= todosCompleted a' /\
  todosDeleted a' = todosDeleted a /\ sessionsCount a' = sessionsCount a.
Proof.
  rewrite toggleTodo_eq. cbn. repeat split. lia.
Qed.

(** Two applications in a row: the list is back, and the counter has gained
    one per task with the id, the incomplete ones at the first application
    and the complete ones at the second. *)
Lemma toggleTodo_twice_eq st :
  let st1 := toggleTodo i st in
  let st2 := toggleTodo i st1 in
  todos st2 = todos st /\
  todosCompleted (analytics st1)
    = todosCompleted (analytics st) + Z.of_nat (countIf (isOpen i) (todos st)) /\
  todosCompleted (analytics st2)
    = todosCompleted (analytics st1) + Z.of_nat (countIf (isDone i) (todos st)) /\
  todosCompleted (analytics st2)
    = todosCompleted (analytics st) + Z.of_nat (countIf (hasId i) (todos st)).
Proof.
  intros st1 st2. subst st1 st2. rewrite !toggleTodo_eq.
  cbn [todos analytics]. rewrite countIf_isOpen_toggled.
  pose proof (countIf_isOpen_isDone (todos st)) as Hsum.
  repeat split.
  - rewrite map_map. rewrite <- (map_id (todos st)) at 2.
    apply map_ext. intros todo. apply toggled_involutive.
  - cbn. lia.
Qed.

End Toggle.

Lemma countIf_elem_of (p : Todo -> bool) (l : list Todo) (todo : Todo) :
  todo ∈ l -> p todo = true -> (1 <= countIf p l)%nat.
Proof.
  unfold countIf. intros Hin Hp. induction Hin as [todo l|todo t l Hin IH].
  - cbn [List.filter]. rewrite Hp. cbn [length]. lia.
  - specialize (IH Hp). cbn [List.filter].
    destruct (p t); cbn [length]; lia.
Qed.

(** C2 (amended). For every task list and every id, [toggleTodo] applied
    twice in succession gives the task list back, so the completed flag of
    every task is at its original value, and [todosCompleted] has gained the
    number of tasks that carry the id. When exactly one task carries it, the
    gain is exactly 1 whether that task started incomplete or complete: the
    increment comes at the first application when it started incomplete and
    at the second when it started complete. Only a transition from
    incomplete to complete increments. *)
Theorem toggleTodo_twice (i : Z) (st : State) :
  let st1 := toggleTodo i st in
  let st2 := toggleTodo i st1 in
  todos st2 = todos st /\
  todosCompleted (analytics st2)
    = todosCompleted (analytics st) + Z.of_nat (countIf (hasId i) (todos st)) /\
  forall todo,
    todo ∈ todos st -> id todo = i -> countIf (hasId i) (todos st) = 1%nat ->
    todosCompleted (analytics st2) = todosCompleted (analytics st) + 1 /\
    todosCompleted (analytics st1)
      = todosCompleted (analytics st) + (if completed todo then 0 else 1) /\
    todosCompleted (analytics st2)
      = todosCompleted (analytics st1) + (if completed todo then 1 else 0).
Proof.
  intros st1 st2.
  destruct (toggleTodo_twice_eq i st) as (Htodos & Hfirst & Hsecond & Hboth).
  fold st1 st2 in Htodos, Hfirst, Hsecond, Hboth.
  split; [exact Htodos|]. split; [exact Hboth|].
  intros todo Hin Hid Hone.
  assert (Hmatch : hasId i todo = true) by (unfold hasId; apply Z.eqb_eq; exact Hid).
  rewrite Hone in Hboth. split; [lia|].
  destruct (completed todo) eqn:Hc.
  - assert (1 <= countIf (isDone i) (todos st))%nat
      by (apply (countIf_elem_of _ _ todo);
          [exact Hin | unfold isDone; rewrite Hmatch, Hc; reflexivity]).
    lia.
  - assert (1 <= countIf (isOpen i) (todos st))%nat
      by (apply (countIf_elem_of _ _ todo);
          [exact Hin | unfold isOpen; rewrite Hmatch, Hc; reflexivity]).
    lia.
Qed.

Lemma toggleTodo_twice_witness :
  let todo := {| id := 5; text := JS.lit "a"; completed := true;
                 createdAt := 5 |} in
  let st :=
    run [Change (JS.lit "a"); AddTodo 5 5; ToggleTodo 5] (initialState 0) in
  let st1 := toggleTodo 5 st in
  let st2 := toggleTodo 5 st1 in
  todosCompleted (analytics st2) = todosCompleted (analytics st) + 1 /\
  todosCompleted (analytics st1) = todosCompleted (analytics st) + 0 /\
  todosCompleted (analytics st2) = todosCompleted (analytics st1) + 1.
Proof.
  intros todo st st1 st2.
  apply (proj2 (proj2 (toggleTodo_twice 5 st)) todo).
  - vm_compute. left.
  - reflexivity.
  - vm_compute. reflexivity.
Defined.

(** C2 as stated fails on a task that starts complete: the two applications
    take it to incomplete and back to complete, and the second one
    increments. Here the only task was added, then completed; toggling it
    twice more adds 1 to [todosCompleted] although it started complete. *)
Lemma toggleTodo_twice_counterexample :
  let todo := {| id := 5; text := JS.lit "a"; completed := true;
                 createdAt := 5 |} in
  let st :=
    run [Change (JS.lit "a"); AddTodo 5 5; ToggleTodo 5] (initialState 0) in
  let st2 := toggleTodo 5 (toggleTodo 5 st) in
  todos st = [todo] /\
  ~ (todosCompleted (analytics st2) = todosCompleted (analytics st) + 1
     <-> completed todo = false).
Proof.
  vm_compute. split; [reflexivity|].
  intros [Hinc _]. specialize (Hinc eq_refl). discriminate.
Qed.

(** ** Filtering keeps exactly the accepted elements, in order *)

Section FilterExactly.

Variables (p : Todo -> bool) (P : Todo -> Prop).
Hypothesis p_spec : forall todo, p todo = true <-> P todo.

Lemma filter_sublist_of (l : list Todo) : List.filter p l `sublist_of` l.
Proof.
  induction l as [|todo rest IH]; cbn [List.filter].
  - constructor.
  - destruct (p todo); [apply sublist_skip | apply sublist_cons]; exact IH.
Qed.

Lemma filter_Forall (l : list Todo) : Forall P (List.filter p l).
Proof.
  induction l as [|todo rest IH]; cbn [List.filter]; [constructor|].
  destruct (p todo) eqn:Hp; [|exact IH].
  constructor; [apply p_spec; exact Hp | exact IH].
Qed.

Lemma filter_greatest (l r : list Todo) :
  r `sublist_of` l -> Forall P r -> r `sublist_of` List.filter p l.
Proof.
  intros Hsub. induction Hsub as [|todo r l Hsub IH|todo r l Hsub IH];
    intros Hall; cbn [List.filter].
  - constructor.
  - inversion Hall as [|? ? Hhead Htail]; subst.
    apply p_spec in Hhead. rewrite Hhead. apply sublist_skip, IH, Htail.
  - destruct (p todo); [apply sublist_cons|]; apply IH, Hall.
Qed.

Lemma filter_exactly_in_order (l : list Todo) :
  exactly_in_order P l (List.filter p l).
Proof.
  split; [apply filter_sublist_of|]. split; [apply filter_Forall|].
  intros r. apply filter_greatest.
Qed.

End FilterExactly.

(** ** Deleting a task *)

Section Delete.

Variable i : Z.

Lemma filter_other_length (l : list Todo) :
  (length (List.filter (fun todo => negb (id todo =? i)%Z) l)
   + countIf (hasId i) l = length l)%nat.
Proof.
  unfold countIf, hasId. induction l as [|todo rest IH]; [reflexivity|].
  cbn [List.filter]. destruct (id todo =? i); cbn [negb length]; lia.
Qed.

Lemma filter_other_absent (l : list Todo) :
  (forall todo, todo ∈ l -> id todo <> i) ->
  List.filter (fun todo => negb (id todo =? i)) l = l.
Proof.
  induction l as [|todo rest IH]; intros Habs; [reflexivity|].
  cbn [List.filter].
  destruct (Z.eqb_spec (id todo) i) as [Heq|Hne].
  - exfalso. apply (Habs todo); [left | exact Heq].
  - cbn [negb]. f_equal. apply IH. intros t Ht. apply Habs. right. exact Ht.
Qed.

Lemma elem_of_filter_other (l : list Todo) (todo : Todo) :
  todo ∈ List.filter (fun t => negb (id t =? i)) l <-> todo ∈ l /\ id todo <> i.
Proof.
  rewrite !list_elem_of_In, filter_In.
  destruct (Z.eqb_spec (id todo) i) as [Heq|Hne]; cbn [negb];
    intuition congruence.
Qed.

(** Ids that are pairwise distinct leave at most one task per id. *)
Lemma countIf_hasId_NoDup (l : list Todo) :
  NoDup (map (fun todo => id todo) l) -> (countIf (hasId i) l <= 1)%nat.
Proof.
  unfold countIf, hasId. induction l as [|todo rest IH]; intros Hnd.
  - cbn. lia.
  - cbn [map] in Hnd. apply NoDup_cons in Hnd as [Hfresh Hnd].
    cbn [List.filter]. destruct (Z.eqb_spec (id todo) i) as [Heq|Hne].
    + assert (Hnone : List.filter (fun t => id t =? i) rest = []).
      { destruct (List.filter (fun t => id t =? i) rest) as [|t ts] eqn:Hf;
          [reflexivity|].
        exfalso. apply Hfresh.
        assert (Hin : In t (List.filter (fun t => id t =? i) rest))
          by (rewrite Hf; left; reflexivity).
        apply filter_In in Hin as [Hin Ht]. apply Z.eqb_eq in Ht.
        apply list_elem_of_In. apply in_map_iff. exists t. split; [lia | exact Hin]. }
      rewrite Hnone. cbn. lia.
    + apply IH. exact Hnd.
Qed.

(** Two tasks with the id at two positions make the count at least 2. *)
Lemma countIf_two_positions (l : list Todo) (k1 k2 : nat) (t1 t2 : Todo) :
  (k1 < k2)%nat -> l !! k1 = Some t1 -> l !! k2 = Some t2 ->
  id t1 = i -> id t2 = i -> (2 <= countIf (hasId i) l)%nat.
Proof.
  revert k1 k2. induction l as [|todo rest IH]; intros k1 k2 Hlt H1 H2 Hi1 Hi2.
  - discriminate.
  - destruct k2 as [|k2]; [lia|]. cbn in H2.
    destruct k1 as [|k1].
    + cbn in H1. injection H1 as ->.
      assert (1 <= countIf (hasId i) rest)%nat.
      { apply (countIf_elem_of _ _ t2).
        - apply list_elem_of_lookup. exists k2. exact H2.
        - unfold hasId. apply Z.eqb_eq. exact Hi2. }
      unfold countIf in *. cbn [List.filter]. unfold hasId at 1.
      rewrite (proj2 (Z.eqb_eq _ _) Hi1). cbn [length]. lia.
    + cbn in H1. assert (2 <= countIf (hasId i) rest)%nat
        by (apply (IH k1 k2); [lia | assumption..]).
      unfold countIf in *. cbn [List.filter].
      destruct (hasId i todo); cbn [length]; lia.
Qed.

End Delete.

(** C3 (amended). For every task list and every id, [deleteTodo] shortens
    the list by the number of tasks that carry the id: by at most 1 when the
    ids of the list are pairwise distinct, by 0 when no task has the id
    (the list is then unchanged); and it increments [todosDeleted] by exactly
    1 whether or not the id was found. *)
Theorem deleteTodo_length_and_count (i : Z) (st : State) :
  (length (todos (deleteTodo i st)) + countIf (hasId i) (todos st)
   = length (todos st))%nat /\
  (NoDup (map (fun todo => id todo) (todos st)) ->
   (length (todos st) - length (todos (deleteTodo i st)) <= 1)%nat) /\
  ((forall todo, todo ∈ todos st -> id todo <> i) ->
   todos (deleteTodo i st) = todos st) /\
  todosDeleted (analytics (deleteTodo i st)) = todosDeleted (analytics st) + 1.
Proof.
  pose proof (filter_other_length i (todos st)) as Hlen.
  unfold deleteTodo. cbn [todos analytics todosDeleted].
  split; [exact Hlen|]. split; [|split; [|reflexivity]].
  - intros Hnd. apply (countIf_hasId_NoDup i) in Hnd. lia.
  - apply filter_other_absent.
Qed.

Lemma deleteTodo_length_and_count_witness :
  let st :=
    run [Change (JS.lit "a"); AddTodo 5 5; Change (JS.lit "b"); AddTodo 6 6]
        (initialState 0) in
  (length (todos st) - length (todos (deleteTodo 5 st)) <= 1)%nat /\
  todos (deleteTodo 7 st) = todos st.
Proof.
  intros st. split.
  - apply (deleteTodo_length_and_count 5 st). vm_compute.
    apply NoDup_cons. split; [|apply NoDup_singleton].
    intros Hin. apply list_elem_of_singleton in Hin. discriminate.
  - apply (deleteTodo_length_and_count 7 st). vm_compute.
    intros todo Hin Hid.
    repeat (apply elem_of_cons in Hin as [->|Hin]; [discriminate|]).
    inversion Hin.
Defined.

(** C3 as stated fails when two tasks share an id, as two tasks added at the
    same clock reading do: one [deleteTodo] removes both, and the list gets
    shorter by 2. *)
Lemma deleteTodo_length_counterexample :
  let st :=
    run [Change (JS.lit "a"); AddTodo 5 5; Change (JS.lit "b"); AddTodo 5 5]
        (initialState 0) in
  length (todos st) = 2%nat /\
  length (todos (deleteTodo 5 st)) = 0%nat /\
  ~ (length (todos st) - length (todos (deleteTodo 5 st)) <= 1)%nat.
Proof.
  vm_compute. split; [reflexivity|]. split; [reflexivity|]. lia.
Qed.

(** C9. [deleteTodo] removes every task whose id is the given one, not just
    the first: the tasks left are exactly those with another id, in their
    order, and a list that holds the id at two positions or more gets
    shorter by more than 1. *)
Theorem deleteTodo_removes_all (i : Z) (st : State) :
  exactly_in_order (fun todo => id todo <> i)
                   (todos st) (todos (deleteTodo i st)) /\
  (forall todo, todo ∈ todos (deleteTodo i st) -> id todo <> i) /\
  (forall k1 k2 t1 t2,
     k1 <> k2 -> todos st !! k1 = Some t1 -> todos st !! k2 = Some t2 ->
     id t1 = i -> id t2 = i ->
     (1 < length (todos st) - length (todos (deleteTodo i st)))%nat).
Proof.
  pose proof (filter_other_length i (todos st)) as Hlen.
  unfold deleteTodo. cbn [todos].
  split; [|split].
  - apply filter_exactly_in_order. intros todo.
    destruct (Z.eqb_spec (id todo) i); cbn [negb]; intuition congruence.
  - intros todo Hin. apply elem_of_filter_other in Hin. tauto.
  - intros k1 k2 t1 t2 Hne H1 H2 Hi1 Hi2.
    assert (2 <= countIf (hasId i) (todos st))%nat as Htwo.
    { destruct (Nat.lt_total k1 k2) as [Hlt|[Heq|Hgt]]; [|contradiction|].
      - exact (countIf_two_positions i _ k1 k2 t1 t2 Hlt H1 H2 Hi1 Hi2).
      - exact (countIf_two_positions i _ k2 k1 t2 t1 Hgt H2 H1 Hi2 Hi1). }
    lia.
Qed.

Lemma deleteTodo_removes_all_witness :
  let st :=
    run [Change (JS.lit "a"); AddTodo 5 5; Change (JS.lit "b"); AddTodo 5 5;
         Change (JS.lit "c"); AddTodo 6 6]
        (initialState 0) in
  (1 < length (todos st) - length (todos (deleteTodo 5 st)))%nat.
Proof.
  intros st.
  apply (proj2 (proj2 (deleteTodo_removes_all 5 st)) 0%nat 1%nat
           {| id := 5; text := JS.lit "a"; completed := false; createdAt := 5 |}
           {| id := 5; text := JS.lit "b"; completed := false; createdAt := 5 |});
    [lia | reflexivity..].
Defined.

(** ** The filtered view *)

(** C4. For every task list, the filtered view holds, with filter [Active],
    exactly the tasks with [completed = false]; with filter [Completed],
    exactly the tasks with [completed = true]; with filter [All], the whole
    list; and in all three cases in the order of the list. *)
Theorem filteredTodos_exact (st : State) :
  match filter st with
  | Active =>
      exactly_in_order (fun todo => completed todo = false)
                       (todos st) (filteredTodos st)
  | Completed =>
      exactly_in_order (fun todo => completed todo = true)
                       (todos st) (filteredTodos st)
  | All => filteredTodos st = todos st
  end.
Proof.
  unfold filteredTodos. destruct (filter st).
  - induction (todos st) as [|todo rest IH]; [reflexivity|].
    cbn [List.filter filterCallback]. f_equal. exact IH.
  - apply filter_exactly_in_order. intros todo. cbn [filterCallback].
    apply negb_true_iff.
  - apply filter_exactly_in_order. intros todo. reflexivity.
Qed.

(** X20. The two restricted views split the list: together they hold every
    task once. *)
Lemma filteredTodos_partition (st : State) :
  filteredTodos (setFilter Active st) ++ filteredTodos (setFilter Completed st)
    ≡ₚ todos st.
Proof.
  unfold filteredTodos. cbn [setFilter filter todos].
  induction (todos st) as [|todo rest IH]; [reflexivity|].
  cbn [List.filter filterCallback]. destruct (completed todo); cbn [negb].
  - rewrite <- Permutation_middle. constructor. exact IH.
  - cbn [app]. constructor. exact IH.
Qed.

(** The scenario of the specification: two tasks added to a fresh list, the
    first one toggled. *)
Example filteredTodos_scenario :
  let st :=
    run [Change (JS.lit "Buy milk"); AddTodo 10 10;
         Change (JS.lit "Walk dog"); AddTodo 20 20; ToggleTodo 10]
        (initialState 0) in
  filteredTodos (setFilter Active st)
    = [ {| id := 20; text := JS.lit "Walk dog"; completed := false;
           createdAt := 20 |} ] /\
  filteredTodos (setFilter Completed st)
    = [ {| id := 10; text := JS.lit "Buy milk"; completed := true;
           createdAt := 10 |} ].
Proof.
  vm_compute. split; reflexivity.
Qed.

(** ** Session start *)

(** C5 (amended). A page load whose mount effect runs at [now], after a first
    render at [tRender], produces: with no persisted analytics record, the
    record with [totalVisitors = 1], [pageViews = 1], [sessionsCount = 1],
    [lastVisit = now], the other counters 0, and [sessionStart] the clock
    reading of the first render; with a persisted record, that record with
    [pageViews] and [sessionsCount] each incremented by 1, [sessionStart] and
    [lastVisit] set to [now], [totalVisitors] incremented by 1 if and only if
    [now] minus the persisted [lastVisit] exceeds 86,400,000 ms (unchanged
    otherwise), and the other counters carried forward. *)
Theorem pageLoad_analytics (tRender now : Z) (store : Storage) :
  match savedAnalytics store with
  | None =>
      analytics (pageLoad tRender now store)
        = {| totalVisitors := 1; pageViews := 1; sessionStart := tRender;
             lastVisit := now; todosCreated := 0; todosCompleted := 0;
             todosDeleted := 0; sessionsCount := 1 |}
  | Some previous =>
      let a := analytics (pageLoad tRender now store) in
      pageViews a = pageViews previous + 1 /\
      sessionsCount a = sessionsCount previous + 1 /\
      sessionStart a = now /\
      lastVisit a = now /\
      (now - lastVisit previous > 86400000 ->
       totalVisitors a = totalVisitors previous + 1) /\
      (now - lastVisit previous <= 86400000 ->
       totalVisitors a = totalVisitors previous) /\
      todosCreated a = todosCreated previous /\
      todosCompleted a = todosCompleted previous /\
      todosDeleted a = todosDeleted previous
  end.
Proof.
  unfold pageLoad, mountEffect. cbn [analytics].
  destruct (savedAnalytics store) as [previous|]; [|reflexivity].
  cbn -[Z.gtb oneDayMs]. rewrite Z.gtb_ltb.
  destruct (Z.ltb_spec oneDayMs (now - lastVisit previous)) as [Hgt|Hle];
    change oneDayMs with 86400000 in *;
    repeat split; intros Hgap; (reflexivity || lia).
Qed.

Lemma pageLoad_analytics_witness :
  let previous :=
    {| totalVisitors := 3; pageViews := 8; sessionStart := 1000;
       lastVisit := 2000; todosCreated := 4; todosCompleted := 2;
       todosDeleted := 1; sessionsCount := 5 |} in
  totalVisitors (analytics (pageLoad (2000 + 25 * 3600000) (2001 + 25 * 3600000)
                    (mkStorage None (Some previous)))) = 4 /\
  totalVisitors (analytics (pageLoad (2000 + 3600000) (2001 + 3600000)
                    (mkStorage None (Some previous)))) = 3.
Proof.
  intros previous. split.
  - destruct (pageLoad_analytics (2000 + 25 * 3600000) (2001 + 25 * 3600000)
                (mkStorage None (Some previous)))
      as (_ & _ & _ & _ & Hnew & _).
    apply Hnew. vm_compute. reflexivity.
  - destruct (pageLoad_analytics (2000 + 3600000) (2001 + 3600000)
                (mkStorage None (Some previous)))
      as (_ & _ & _ & _ & _ & Hsame & _).
    apply Hsame. vm_compute. discriminate.
Defined.

(** When the first render and the effect read the same clock value, the
    fresh record has it as [sessionStart] too. *)
Lemma pageLoad_fresh_same_reading (now : Z) (store : Storage) :
  savedAnalytics store = None ->
  analytics (pageLoad now now store)
    = {| totalVisitors := 1; pageViews := 1; sessionStart := now;
         lastVisit := now; todosCreated := 0; todosCompleted := 0;
         todosDeleted := 0; sessionsCount := 1 |}.
Proof.
  intros Hnone. unfold pageLoad, mountEffect. cbn [analytics].
  rewrite Hnone. reflexivity.
Qed.

(** C5 as stated fails on [sessionStart] of a fresh record: the else-branch
    of the effect keeps the [sessionStart] of the initial state, which is the
    clock reading of the first render, and sets only [lastVisit] to the
    effect's [now]. With a render at 1000 and the effect at 1005 the record
    is not the one with [sessionStart = now]. *)
Lemma pageLoad_fresh_counterexample :
  let a := analytics (pageLoad 1000 1005 (mkStorage None None)) in
  sessionStart a = 1000 /\ lastVisit a = 1005 /\
  a <> {| totalVisitors := 1; pageViews := 1; sessionStart := 1005;
          lastVisit := 1005; todosCreated := 0; todosCompleted := 0;
          todosDeleted := 0; sessionsCount := 1 |}.
Proof.
  vm_compute. split; [reflexivity|]. split; [reflexivity|]. discriminate.
Qed.

(** ** Completion rate *)

(** The rate depends on the two task counters only. *)
Lemma completionRate_withTasks (a : Analytics) :
  completionRate a = completionRate (withTasks (todosCompleted a) (todosCreated a)).
Proof.
  reflexivity.
Qed.

(** X19. Up to 39 created tasks, and no more completions counted than
    tasks created, the displayed rate is the exactly rounded percentage, a
    tie going up. *)
Lemma completionRate_exact_below_40 (a : Analytics) :
  0 <= todosCompleted a <= todosCreated a -> 0 < todosCreated a < 40 ->
  completionRate a
    = JS.Int (exactRate (todosCompleted a) (todosCreated a)).
Proof.
  intros Hdone Hcreated. rewrite completionRate_withTasks.
  generalize dependent (todosCompleted a). generalize dependent (todosCreated a).
  clear a. intros created Hcreated done Hdone.
  assert (Hall : forallb rateIsExact (map Z.of_nat (seq 1 39)) = true)
    by (vm_compute; reflexivity).
  rewrite forallb_forall in Hall.
  assert (Hrow : rateIsExact created = true).
  { apply Hall, in_map_iff. exists (Z.to_nat created).
    split; [lia | apply in_seq; lia]. }
  unfold rateIsExact in Hrow. rewrite forallb_forall in Hrow.
  assert (Hin : In done (map Z.of_nat (seq 0 (S (Z.to_nat created))))).
  { apply in_map_iff. exists (Z.to_nat done). split; [lia | apply in_seq; lia]. }
  specialize (Hrow done Hin).
  destruct (completionRate (withTasks done created)) as [z| |];
    [|discriminate..].
  apply Z.eqb_eq in Hrow. congruence.
Qed.

(** With 23 tasks completed out of 40 the exact percentage is 57.5, which
    rounds to 58; the binary64 product [23 / 40 * 100] is just below 57.5
    and the display shows 57. Multiplying first, [100 * 23 / 40], is exact
    and would give 58: the order of the two operations matters. *)
Example completionRate_23_of_40 :
  completionRate (withTasks 23 40) = JS.Int 57 /\
  exactRate 23 40 = 58 /\
  JS.Math_round (JS.div (JS.mul (JS.num 100) (JS.num 23)) (JS.num 40))
    = JS.Int 58.
Proof.
  vm_compute. repeat split.
Qed.

(** ** The counters never decrease *)

Lemma counters_le_refl (a : Analytics) : counters_le a a.
Proof.
  unfold counters_le. lia.
Qed.

Lemma counters_le_trans (a b c : Analytics) :
  counters_le a b -> counters_le b c -> counters_le a c.
Proof.
  unfold counters_le. lia.
Qed.

Lemma handle_counters (ev : Event) (st : State) :
  counters_le (analytics st) (analytics (handle ev st)).
Proof.
  destruct ev as [v|tId tCreated|i|i|f|b]; cbn [handle].
  - apply counters_le_refl.
  - unfold addTodo. case_eq (JS.trim (inputValue st)).
    + intros _. apply counters_le_refl.
    + intros c r _. unfold counters_le. cbn. lia.
  - pose proof (toggleTodo_analytics i st) as Htoggle. cbv zeta in Htoggle.
    unfold counters_le. lia.
  - unfold counters_le. cbn. lia.
  - apply counters_le_refl.
  - apply counters_le_refl.
Qed.

(** The handlers leave [sessionStart] and [lastVisit] alone: only a page load
    writes them. *)
Lemma handle_session_fields (ev : Event) (st : State) :
  sessionStart (analytics (handle ev st)) = sessionStart (analytics st) /\
  lastVisit (analytics (handle ev st)) = lastVisit (analytics st).
Proof.
  destruct ev as [v|tId tCreated|i|i|f|b]; cbn [handle];
    try (split; reflexivity).
  - unfold addTodo. destruct (JS.trim (inputValue st)); split; reflexivity.
  - pose proof (toggleTodo_analytics i st) as Htoggle. cbv zeta in Htoggle.
    tauto.
Qed.

Lemma record_step_counters (a b : Analytics) :
  record_step a b -> counters_le a b.
Proof.
  intros Hstep. inversion Hstep as [ev st|tRender now store p Hsaved|tRender now store Hsaved];
    subst.
  - apply handle_counters.
  - unfold pageLoad, mountEffect, analyticsInitialization. cbn [analytics].
    rewrite Hsaved. unfold counters_le. cbn -[Z.gtb oneDayMs].
    destruct (now - lastVisit a >? oneDayMs); lia.
  - unfold pageLoad, mountEffect, analyticsInitialization. cbn [analytics].
    rewrite Hsaved. unfold counters_le. cbn. lia.
Qed.

(** C7. Each of the six counters [totalVisitors], [pageViews],
    [todosCreated], [todosCompleted], [todosDeleted] and [sessionsCount] is
    non-decreasing along every sequence of operations on the analytics
    record: the events of the page (adding, toggling and deleting a task
    among them) and the session-start hydration of a page load. Only
    [sessionStart] and [lastVisit] are left out of the order. *)
Theorem counters_monotone (a b : Analytics) :
  rtc record_step a b -> counters_le a b.
Proof.
  intros Hsteps. induction Hsteps as [a|a b c Hstep _ IH].
  - apply counters_le_refl.
  - apply (counters_le_trans a b c); [|exact IH].
    apply record_step_counters. exact Hstep.
Qed.

Lemma counters_monotone_witness :
  let st0 := pageLoad 1000 1005 (mkStorage None None) in
  let st1 := handle (Change (JS.lit "a")) st0 in
  let st2 := handle (AddTodo 2000 2000) st1 in
  let st3 := handle (ToggleTodo 2000) st2 in
  let st4 := handle (DeleteTodo 2000) st3 in
  let st5 := pageLoad 9000 9001 (persist st4) in
  counters_le (initialAnalytics 1000) (analytics st5).
Proof.
  intros st0 st1 st2 st3 st4 st5. apply counters_monotone.
  apply (rtc_l _ _ (analytics st0));
    [apply (step_load_fresh 1000 1005 (mkStorage None None)); reflexivity|].
  apply (rtc_l _ _ (analytics st1)); [apply (step_event _ st0)|].
  apply (rtc_l _ _ (analytics st2)); [apply (step_event _ st1)|].
  apply (rtc_l _ _ (analytics st3)); [apply (step_event _ st2)|].
  apply (rtc_l _ _ (analytics st4)); [apply (step_event _ st3)|].
  apply (rtc_l _ _ (analytics st5));
    [apply (step_load_saved 9000 9001 (persist st4)); reflexivity|].
  apply rtc_refl.
Defined.

(** ** Average session duration *)



(** A quotient that is not an integer: 125 seconds over 3 sessions. *)
Example getAverageSessionDuration_thirds :
  getAverageSessionDuration 125000
    {| totalVisitors := 1; pageViews := 3; sessionStart := 0; lastVisit := 0;
       todosCreated := 0; todosCompleted := 0; todosDeleted := 0;
       sessionsCount := 3 |} = "0m 41s".
Proof.
  vm_compute. reflexivity.
Qed.

(** A session start ahead of the clock is not guarded against: both numbers
    come out negative. *)
Example getAverageSessionDuration_negative :
  getAverageSessionDuration 0
    {| totalVisitors := 1; pageViews := 1; sessionStart := 1500;
       lastVisit := 0; todosCreated := 0; todosCompleted := 0;
       todosDeleted := 0; sessionsCount := 1 |} = "-1m -2s".
Proof.
  vm_compute. reflexivity.
Qed.

(** C10. The average-session-duration derivation is total: with every
    division checked for a zero divisor it still returns the text of the
    unchecked function, for every record and clock reading; and when
    [sessionsCount = 0] that text is [0m 0s], returned before the division
    by [sessionsCount]. *)
Theorem getAverageSessionDuration_total (now : Z) (a : Analytics) :
  getAverageSessionDuration_checked now a
    = Some (getAverageSessionDuration now a) /\
  (sessionsCount a = 0 ->
   getAverageSessionDuration now a = "0m 0s" /\
   getAverageSessionDuration_checked now a = Some "0m 0s").
Proof.
  unfold getAverageSessionDuration_checked, getAverageSessionDuration, checkedDiv.
  destruct (sessionsCount a =? 0) eqn:Hcount.
  - split; [reflexivity|]. intros _. split; reflexivity.
  - split; [reflexivity|]. intros Hzero. rewrite Hzero in Hcount. discriminate.
Qed.

Lemma getAverageSessionDuration_total_witness :
  getAverageSessionDuration 5000 (initialAnalytics 1000) = "0m 0s" /\
  getAverageSessionDuration_checked 5000 (initialAnalytics 1000) = Some "0m 0s".
Proof.
  apply (proj2 (getAverageSessionDuration_total 5000 (initialAnalytics 1000))).
  reflexivity.
Defined.

(** ** More on the handlers *)

Lemma toggled_id (i : Z) (todo : Todo) : id (toggled i todo) = id todo.
Proof.
  unfold toggled. destruct (id todo =? i); reflexivity.
Qed.

Lemma toggled_other (i : Z) (todo : Todo) : id todo <> i -> toggled i todo = todo.
Proof.
  intros Hne. unfold toggled.
  destruct (Z.eqb_spec (id todo) i) as [Heq|_]; [contradiction | reflexivity].
Qed.

Lemma toggled_comm (i j : Z) (todo : Todo) :
  toggled i (toggled j todo) = toggled j (toggled i todo).
Proof.
  destruct (Z.eq_dec i j) as [->|Hne]; [reflexivity|].
  unfold toggled at 2 4.
  destruct (Z.eqb_spec (id todo) j) as [Hj|Hj],
           (Z.eqb_spec (id todo) i) as [Hi|Hi]; try congruence.
  - rewrite (toggled_other i) by (cbn; congruence). unfold toggled.
    rewrite (proj2 (Z.eqb_eq _ _) Hj). reflexivity.
  - rewrite (toggled_other j) by (cbn; congruence). unfold toggled.
    rewrite (proj2 (Z.eqb_eq _ _) Hi). reflexivity.
  - rewrite !toggled_other by assumption. reflexivity.
Qed.

Lemma isOpen_toggled_other (i j : Z) (todo : Todo) :
  i <> j -> isOpen i (toggled j todo) = isOpen i todo.
Proof.
  intros Hne. unfold isOpen, hasId. rewrite toggled_id.
  destruct (Z.eqb_spec (id todo) i) as [Hi|Hi]; [|reflexivity].
  rewrite toggled_other by congruence. reflexivity.
Qed.

Lemma countIf_ext (p q : Todo -> bool) (l : list Todo) :
  (forall todo, p todo = q todo) -> countIf p l = countIf q l.
Proof.
  intros Hext. unfold countIf. induction l as [|todo rest IH]; [reflexivity|].
  cbn [List.filter]. rewrite Hext. destruct (q todo); cbn [length]; congruence.
Qed.

Lemma countIf_map (p : Todo -> bool) (f : Todo -> Todo) (l : list Todo) :
  countIf p (map f l) = countIf (fun todo => p (f todo)) l.
Proof.
  unfold countIf. induction l as [|todo rest IH]; [reflexivity|].
  cbn [map List.filter]. destruct (p (f todo)); cbn [length]; congruence.
Qed.

Lemma countIf_none (p : Todo -> bool) (l : list Todo) :
  (forall todo, todo ∈ l -> p todo = false) -> countIf p l = 0%nat.
Proof.
  unfold countIf. induction l as [|todo rest IH]; intros Hnone; [reflexivity|].
  cbn [List.filter]. rewrite (Hnone todo) by left.
  apply IH. intros t Ht. apply Hnone. right. exact Ht.
Qed.

(** X1. One application of [toggleTodo], as a whole: every task with the id
    has its completed flag flipped, every other task and the order of the
    list are kept, [todosCompleted] gains the number of tasks that went from
    incomplete to complete, and nothing else in the state changes. *)
Theorem toggleTodo_effect (i : Z) (st : State) :
  let a := analytics st in
  toggleTodo i st =
    {| todos :=
         map (fun todo =>
                {| id := id todo; text := text todo;
                   completed := if id todo =? i then negb (completed todo)
                                else completed todo;
                   createdAt := createdAt todo |})
             (todos st);
       inputValue := inputValue st;
       filter := filter st;
       showAnalytics := showAnalytics st;
       analytics :=
         {| totalVisitors := totalVisitors a;
            pageViews := pageViews a;
            sessionStart := sessionStart a;
            lastVisit := lastVisit a;
            todosCreated := todosCreated a;
            todosCompleted :=
              todosCompleted a
              + Z.of_nat (countIf (fun todo => (id todo =? i)
                                               && negb (completed todo))
                                  (todos st));
            todosDeleted := todosDeleted a;
            sessionsCount := sessionsCount a |} |}.
Proof.
  intros a. rewrite toggleTodo_eq. f_equal.
  apply map_ext. intros [n t c d]. unfold toggled. cbn.
  destruct (n =? i); reflexivity.
Qed.

(** X2. An id that no task carries makes [toggleTodo] a no-op: the whole
    state, the analytics record included, is left as it is. *)
Theorem toggleTodo_absent (i : Z) (st : State) :
  (forall todo, todo ∈ todos st -> id todo <> i) -> toggleTodo i st = st.
Proof.
  intros Habs. rewrite toggleTodo_eq.
  rewrite (countIf_none (isOpen i)), bump_0.
  - destruct st as [l v f b a]. cbn [todos inputValue filter showAnalytics analytics] in *.
    f_equal. rewrite <- (map_id l) at 2. apply map_ext_in.
    intros todo Hin. apply toggled_other, Habs, list_elem_of_In, Hin.
  - intros todo Hin. unfold isOpen, hasId.
    destruct (Z.eqb_spec (id todo) i) as [Heq|_]; [|reflexivity].
    exfalso. exact (Habs todo Hin Heq).
Qed.

Lemma toggleTodo_absent_witness :
  let st :=
    run [Change (JS.lit "a"); AddTodo 5 5; ToggleTodo 5] (initialState 0) in
  toggleTodo 6 st = st.
Proof.
  intros st. apply (toggleTodo_absent 6 st).
  intros todo Hin. vm_compute in Hin.
  apply list_elem_of_singleton in Hin. subst todo. discriminate.
Defined.

(** X3. Toggles commute: whatever the two ids, toggling one then the other
    gives the same state, counters included, as the other order. *)
Theorem toggleTodo_comm (i j : Z) (st : State) :
  toggleTodo i (toggleTodo j st) = toggleTodo j (toggleTodo i st).
Proof.
  destruct (Z.eq_dec i j) as [->|Hne]; [reflexivity|].
  rewrite !toggleTodo_eq. cbn [todos inputValue filter showAnalytics analytics].
  f_equal.
  - rewrite !map_map. apply map_ext. intros todo. apply toggled_comm.
  - rewrite !countIf_map, !bump_bump.
    rewrite (countIf_ext (fun todo => isOpen i (toggled j todo)) (isOpen i))
      by (intros todo; apply isOpen_toggled_other; exact Hne).
    rewrite (countIf_ext (fun todo => isOpen j (toggled i todo)) (isOpen j))
      by (intros todo; apply isOpen_toggled_other; congruence).
    f_equal. lia.
Qed.

Lemma filter_filter_comm (p q : Todo -> bool) (l : list Todo) :
  List.filter p (List.filter q l) = List.filter q (List.filter p l).
Proof.
  induction l as [|todo rest IH]; [reflexivity|].
  cbn [List.filter]. destruct (q todo) eqn:Hq, (p todo) eqn:Hp;
    cbn [List.filter]; rewrite ?Hq, ?Hp; congruence.
Qed.

Lemma filter_filter_same (p : Todo -> bool) (l : list Todo) :
  List.filter p (List.filter p l) = List.filter p l.
Proof.
  induction l as [|todo rest IH]; [reflexivity|].
  cbn [List.filter]. destruct (p todo) eqn:Hp; cbn [List.filter];
    rewrite ?Hp; congruence.
Qed.

(** X4. Deletions commute, and deleting the same id a second time removes
    nothing more from the list but is counted again in [todosDeleted]. *)
Theorem deleteTodo_comm_and_repeat (i j : Z) (st : State) :
  deleteTodo i (deleteTodo j st) = deleteTodo j (deleteTodo i st) /\
  todos (deleteTodo i (deleteTodo i st)) = todos (deleteTodo i st) /\
  todosDeleted (analytics (deleteTodo i (deleteTodo i st)))
    = todosDeleted (analytics st) + 2.
Proof.
  unfold deleteTodo. cbn [todos inputValue filter showAnalytics analytics
                         totalVisitors pageViews sessionStart lastVisit
                         todosCreated todosCompleted todosDeleted sessionsCount].
  split; [|split].
  - f_equal. apply filter_filter_comm.
  - apply filter_filter_same.
  - lia.
Qed.

(** X5. Adding a task under an id that no task of the list carries, and
    deleting that id, gives the task list back; both counters have moved. *)
Theorem addTodo_deleteTodo (tId tCreated : Z) (st : State) :
  JS.trim (inputValue st) <> [] ->
  (forall todo, todo ∈ todos st -> id todo <> tId) ->
  let st' := deleteTodo tId (addTodo tId tCreated st) in
  todos st' = todos st /\
  todosCreated (analytics st') = todosCreated (analytics st) + 1 /\
  todosDeleted (analytics st') = todosDeleted (analytics st) + 1.
Proof.
  intros Hne Hfresh. unfold addTodo.
  destruct (JS.trim (inputValue st)) as [|c r]; [contradiction|].
  unfold deleteTodo. cbn [todos analytics todosCreated todosDeleted].
  split; [|split; reflexivity].
  rewrite List.filter_app, (filter_other_absent tId _ Hfresh).
  cbn [List.filter id]. rewrite Z.eqb_refl. cbn [negb]. apply app_nil_r.
Qed.

Lemma addTodo_deleteTodo_witness :
  let st :=
    run [Change (JS.lit "a"); AddTodo 5 5; Change (JS.lit "b")]
        (initialState 0) in
  let st' := deleteTodo 6 (addTodo 6 6 st) in
  todos st' = todos st /\
  todosCreated (analytics st') = todosCreated (analytics st) + 1 /\
  todosDeleted (analytics st') = todosDeleted (analytics st) + 1.
Proof.
  intros st. apply (addTodo_deleteTodo 6 6 st).
  - vm_compute. discriminate.
  - intros todo Hin. vm_compute in Hin.
    apply list_elem_of_singleton in Hin. subst todo. discriminate.
Defined.

(** X6. A successful [addTodo] empties the input, so a second [addTodo]
    right after it, or after one that was ignored, adds nothing: the add
    control cannot store the same input twice. *)
Theorem addTodo_twice (t1 c1 t2 c2 : Z) (st : State) :
  addTodo t2 c2 (addTodo t1 c1 st) = addTodo t1 c1 st.
Proof.
  unfold addTodo at 2 3.
  destruct (JS.trim (inputValue st)) as [|c r] eqn:Htrim.
  - unfold addTodo. rewrite Htrim. reflexivity.
  - reflexivity.
Qed.

(** X7. The three numbers of the stats line add up: the active and the
    completed tasks together are all the tasks. *)
Theorem activeTodos_completedTodos (st : State) :
  (activeTodos st + completedTodos st = length (todos st))%nat.
Proof.
  unfold activeTodos, completedTodos.
  induction (todos st) as [|todo rest IH]; [reflexivity|].
  cbn [List.filter]. destruct (completed todo); cbn [negb length]; lia.
Qed.

(** ** Invariants of the component *)

Lemma handle_keeps_visits (ev : Event) (st : State) :
  let a := analytics st in
  let a' := analytics (handle ev st) in
  totalVisitors a' = totalVisitors a /\ pageViews a' = pageViews a /\
  sessionsCount a' = sessionsCount a /\ sessionStart a' = sessionStart a /\
  lastVisit a' = lastVisit a.
Proof.
  destruct ev as [v|tId tCreated|i|i|f|b]; cbn [handle]; cbv zeta;
    try (repeat split; reflexivity).
  - unfold addTodo. destruct (JS.trim (inputValue st)); repeat split; reflexivity.
  - pose proof (toggleTodo_analytics i st) as Htoggle. cbv zeta in Htoggle.
    tauto.
Qed.

(** X8. No event of the page touches the visit fields of the analytics
    record: [totalVisitors], [pageViews], [sessionsCount], [sessionStart] and
    [lastVisit] change at a page load only. *)
Theorem handle_visit_fields (ev : Event) (st : State) :
  let a := analytics st in
  let a' := analytics (handle ev st) in
  totalVisitors a' = totalVisitors a /\ pageViews a' = pageViews a /\
  sessionsCount a' = sessionsCount a /\ sessionStart a' = sessionStart a /\
  lastVisit a' = lastVisit a.
Proof.
  exact (handle_keeps_visits ev st).
Qed.

Lemma ids_toggleTodo (i : Z) (st : State) : ids (toggleTodo i st) = ids st.
Proof.
  unfold ids. rewrite toggleTodo_eq. cbn [todos]. rewrite map_map.
  apply map_ext. intros todo. apply toggled_id.
Qed.

Lemma ids_deleteTodo (i : Z) (st : State) :
  ids (deleteTodo i st) `sublist_of` ids st.
Proof.
  unfold ids, deleteTodo. cbn [todos].
  induction (todos st) as [|todo rest IH]; [constructor|].
  cbn [List.filter map]. destruct (negb (id todo =? i)); cbn [map].
  - apply sublist_skip, IH.
  - apply sublist_cons, IH.
Qed.

(** X9. Ids stay pairwise distinct as long as every task is added under an
    id that no task of the list carries: toggling, deleting and the view
    controls never create a duplicate. *)
Theorem handle_ids_distinct (ev : Event) (st : State) :
  NoDup (ids st) -> freshId ev st -> NoDup (ids (handle ev st)).
Proof.
  intros Hnd Hfresh. destruct ev as [v|tId tCreated|i|i|f|b]; cbn [handle];
    try exact Hnd.
  - unfold addTodo. destruct (JS.trim (inputValue st)) as [|c r]; [exact Hnd|].
    unfold ids. cbn [todos]. rewrite map_app. cbn [map id].
    apply NoDup_app. split; [exact Hnd|]. split; [|apply NoDup_singleton].
    intros x Hx Hin. apply list_elem_of_singleton in Hin. subst x.
    exact (Hfresh Hx).
  - rewrite ids_toggleTodo. exact Hnd.
  - eapply sublist_NoDup; [exact Hnd | apply ids_deleteTodo].
Qed.

Lemma handle_ids_distinct_witness :
  let st :=
    run [Change (JS.lit "a"); AddTodo 5 5; Change (JS.lit "b")]
        (initialState 0) in
  NoDup (ids (handle (AddTodo 6 6) st)).
Proof.
  intros st. apply (handle_ids_distinct (AddTodo 6 6) st).
  - vm_compute. apply NoDup_singleton.
  - vm_compute. intros Hin. apply list_elem_of_singleton in Hin. discriminate.
Defined.

Lemma handle_visitsConsistent (ev : Event) (st : State) :
  visitsConsistent (analytics st) -> visitsConsistent (analytics (handle ev st)).
Proof.
  unfold visitsConsistent.
  pose proof (handle_keeps_visits ev st) as Hvisit. cbv zeta in Hvisit.
  pose proof (handle_counters ev st) as Hle. unfold counters_le in Hle. lia.
Qed.

Lemma pageLoad_visitsConsistent (tRender now : Z) (store : Storage) :
  match savedAnalytics store with
  | Some a => visitsConsistent a
  | None => True
  end ->
  visitsConsistent (analytics (pageLoad tRender now store)).
Proof.
  unfold pageLoad, mountEffect, analyticsInitialization, visitsConsistent.
  cbn [analytics]. destruct (savedAnalytics store) as [a|].
  - cbn -[Z.gtb oneDayMs]. destruct (now - lastVisit a >? oneDayMs); lia.
  - intros _. cbn. lia.
Qed.

(** X10. On every state the component reaches from an empty storage, across
    page loads, the analytics record has as many page views as sessions, at
    least one visitor and at most as many visitors as sessions, and no
    negative task counter. In particular [sessionsCount] is at least 1. *)
Theorem reachable_visitsConsistent (st : State) :
  reachable st ->
  visitsConsistent (analytics st) /\ 1 <= sessionsCount (analytics st).
Proof.
  intros Hreach.
  assert (Hinv : visitsConsistent (analytics st)).
  { induction Hreach as [tRender now|ev st _ IH|tRender now st _ IH].
    - apply pageLoad_visitsConsistent. exact I.
    - apply handle_visitsConsistent, IH.
    - apply pageLoad_visitsConsistent. exact IH. }
  split; [exact Hinv|]. unfold visitsConsistent in Hinv. lia.
Qed.

Lemma reachable_visitsConsistent_witness :
  let st :=
    pageLoad 9000 9001
      (persist (run [Change (JS.lit "a"); AddTodo 5 5]
                    (pageLoad 1000 1005 (mkStorage None None)))) in
  visitsConsistent (analytics st) /\ 1 <= sessionsCount (analytics st).
Proof.
  intros st. apply (reachable_visitsConsistent st).
  apply reach_reload.
  apply (reach_event (AddTodo 5 5)). apply (reach_event (Change (JS.lit "a"))).
  apply reach_first.
Defined.

Lemma completed_toggled_le (i : Z) (l : list Todo) :
  (length (List.filter (fun todo => completed todo) (map (toggled i) l))
   <= length (List.filter (fun todo => completed todo) l)
      + countIf (isOpen i) l)%nat.
Proof.
  unfold countIf. induction l as [|todo rest IH]; [reflexivity|].
  cbn [map List.filter]. unfold isOpen at 1, hasId, toggled at 1.
  destruct (id todo =? i), (completed todo) eqn:Hc;
    cbn [completed negb andb length]; rewrite ?Hc; cbn [length]; lia.
Qed.

Lemma filter_filter_length_le (p q : Todo -> bool) (l : list Todo) :
  (length (List.filter p (List.filter q l)) <= length (List.filter p l))%nat.
Proof.
  induction l as [|todo rest IH]; [reflexivity|].
  cbn [List.filter]. destruct (q todo), (p todo) eqn:Hp; cbn [List.filter length];
    rewrite ?Hp; cbn [length]; lia.
Qed.

Lemma handle_tasksConsistent (ev : Event) (st : State) :
  tasksConsistent st -> tasksConsistent (handle ev st).
Proof.
  unfold tasksConsistent, completedTodos. intros [Hlen Hdone].
  destruct ev as [v|tId tCreated|i|i|f|b]; cbn [handle];
    try (split; assumption).
  - unfold addTodo. destruct (JS.trim (inputValue st)) as [|c r];
      [split; assumption|].
    cbn [todos analytics todosCreated todosCompleted].
    rewrite length_app, List.filter_app, length_app. cbn. lia.
  - rewrite toggleTodo_eq. cbn [todos analytics todosCreated todosCompleted bump].
    rewrite length_map. pose proof (completed_toggled_le i (todos st)). lia.
  - unfold deleteTodo. cbn [todos analytics todosCreated todosCompleted].
    pose proof (filter_other_length i (todos st)).
    pose proof (filter_filter_length_le (fun todo => completed todo)
                  (fun todo => negb (id todo =? i)) (todos st)). lia.
Qed.

(** X11. On every state the component reaches from an empty storage, across
    page loads, the list holds no more tasks than [todosCreated] counts and
    no more completed tasks than [todosCompleted] counts. *)
Theorem reachable_tasksConsistent (st : State) :
  reachable st -> tasksConsistent st.
Proof.
  intros Hreach. induction Hreach as [tRender now|ev st _ IH|tRender now st _ IH].
  - unfold tasksConsistent, completedTodos. cbn. lia.
  - apply handle_tasksConsistent, IH.
  - unfold tasksConsistent, completedTodos in *. cbn -[Z.gtb oneDayMs Z.of_nat].
    exact IH.
Qed.

Lemma reachable_tasksConsistent_witness :
  let st :=
    run [Change (JS.lit "a"); AddTodo 5 5; ToggleTodo 5; ToggleTodo 5;
         ToggleTodo 5; DeleteTodo 9]
        (pageLoad 1000 1005 (mkStorage None None)) in
  tasksConsistent st.
Proof.
  intros st. apply (reachable_tasksConsistent st).
  repeat apply reach_event. apply reach_first.
Defined.

Section TrimmedText.

Implicit Types (s r : JS.jsstring) (c : JS.code_unit).

Lemma trimEnd_head s c r : JS.trimEnd s = c :: r -> exists r', s = c :: r'.
Proof.
  destruct s as [|c0 r0]; cbn [JS.trimEnd]; [discriminate|].
  destruct (JS.trimEnd r0); [destruct (JS.is_white_space c0)|];
    intros Heq; try discriminate; injection Heq as <- _; eauto.
Qed.

Lemma trimEnd_last s r c :
  JS.trimEnd s = r ++ [c] -> JS.is_white_space c = false.
Proof.
  revert r. induction s as [|c0 r0 IH]; intros r; cbn [JS.trimEnd].
  - intros Heq. destruct r; discriminate.
  - destruct (JS.trimEnd r0) as [|c1 r1] eqn:Hend.
    + destruct (JS.is_white_space c0) eqn:Hc0; intros Heq.
      * destruct r; discriminate.
      * destruct r as [|c2 r2]; [injection Heq as <-; exact Hc0|].
        injection Heq as _ Heq. destruct r2; discriminate.
    + intros Heq. destruct r as [|c2 r2]; [discriminate|].
      injection Heq as _ Heq. exact (IH r2 Heq).
Qed.

(** A trimmed form that is not empty starts and ends with a character that
    is not white space. *)
Lemma trim_trimmedText s : JS.trim s <> [] -> trimmedText (JS.trim s).
Proof.
  intros Hne. split; [exact Hne|]. split.
  - intros c r Heq. unfold JS.trim in Heq.
    destruct (trimEnd_head _ _ _ Heq) as [r' Hstart].
    exact (trimStart_head _ _ _ Hstart).
  - intros r c Heq. exact (trimEnd_last _ _ _ Heq).
Qed.

End TrimmedText.

Lemma handle_texts (ev : Event) (st : State) :
  Forall (fun todo => trimmedText (text todo)) (todos st) ->
  Forall (fun todo => trimmedText (text todo)) (todos (handle ev st)).
Proof.
  intros Hall. destruct ev as [v|tId tCreated|i|i|f|b]; cbn [handle];
    try exact Hall.
  - unfold addTodo. destruct (JS.trim (inputValue st)) as [|c r] eqn:Htrim;
      [exact Hall|].
    cbn [todos]. apply Forall_app. split; [exact Hall|].
    constructor; [|constructor]. cbn [text]. rewrite <- Htrim.
    apply trim_trimmedText. rewrite Htrim. discriminate.
  - rewrite toggleTodo_eq. cbn [todos]. apply Forall_fmap.
    eapply Forall_impl; [exact Hall|]. intros todo Htext. cbn.
    unfold toggled. destruct (id todo =? i); exact Htext.
  - unfold deleteTodo. cbn [todos].
    induction Hall as [|todo rest Htext _ IH]; [constructor|].
    cbn [List.filter]. destruct (negb (id todo =? i)); [|exact IH].
    constructor; assumption.
Qed.

(** X12. On every state the component reaches from an empty storage, across
    page loads, the text of every task is not empty and neither starts nor
    ends with a white-space character. *)
Theorem reachable_texts (st : State) :
  reachable st -> Forall (fun todo => trimmedText (text todo)) (todos st).
Proof.
  intros Hreach. induction Hreach as [tRender now|ev st _ IH|tRender now st _ IH].
  - constructor.
  - apply handle_texts, IH.
  - exact IH.
Qed.

Lemma reachable_texts_witness :
  let st :=
    run [Change (JS.lit "  Buy milk "); AddTodo 5 5]
        (pageLoad 1000 1005 (mkStorage None None)) in
  Forall (fun todo => trimmedText (text todo)) (todos st).
Proof.
  intros st. apply (reachable_texts st).
  repeat apply reach_event. apply reach_first.
Defined.

(** ** Storage *)

(** X13. Mounting leaves in storage exactly the state it ends in. The save
    effects first write the empty list and the initial record of the first
    render over what was stored; the second render then writes the loaded
    tasks and the initialised record, so that the stored tasks are the ones
    read, and the empty list when there were none. *)
Theorem mount_storage (tRender now : Z) (store : Storage) :
  let '(st, store') := mount tRender now store in
  st = pageLoad tRender now store /\
  store' = persist st /\
  todos st = default [] (savedTodos store).
Proof.
  unfold mount, pageLoad, persist, saveAnalytics, saveTodos, mountEffect.
  cbn [todos analytics savedTodos savedAnalytics initialState].
  destruct (savedTodos store) as [parsedTodos|]; repeat split.
Qed.

(** X14. Loading the page from what a page left in storage gives its task
    list back, element by element, with the three task counters; the input
    field, the filter and the analytics screen start over. *)
Theorem reload_keeps_tasks (tRender now : Z) (st : State) :
  let st' := fst (mount tRender now (persist st)) in
  todos st' = todos st /\
  todosCreated (analytics st') = todosCreated (analytics st) /\
  todosCompleted (analytics st') = todosCompleted (analytics st) /\
  todosDeleted (analytics st') = todosDeleted (analytics st) /\
  inputValue st' = [] /\ filter st' = All /\ showAnalytics st' = false.
Proof.
  cbn -[Z.gtb oneDayMs]. repeat split.
Qed.

(** ** Runs of events *)

Lemma run_cons (ev : Event) (evs : list Event) (st : State) :
  run (ev :: evs) st = run evs (handle ev st).
Proof.
  reflexivity.
Qed.

Lemma handle_counts (ev : Event) (st : State) :
  todosDeleted (analytics (handle ev st))
    = todosDeleted (analytics st) + Z.of_nat (deletions [ev]) /\
  todosCreated (analytics st) <= todosCreated (analytics (handle ev st))
    <= todosCreated (analytics st) + 1.
Proof.
  destruct ev as [v|tId tCreated|i|i|f|b]; cbn [handle].
  - cbn. lia.
  - unfold addTodo. destruct (JS.trim (inputValue st)); cbn; lia.
  - pose proof (toggleTodo_analytics i st) as Htoggle. cbv zeta in Htoggle.
    cbn [deletions List.filter length Z.of_nat]. lia.
  - cbn. lia.
  - cbn. lia.
  - cbn. lia.
Qed.

(** X15. Over any sequence of events [todosDeleted] grows by the number of
    delete events in it, found ids or not, and [todosCreated] by no more than
    the number of events. *)
Theorem run_counts (evs : list Event) (st : State) :
  todosDeleted (analytics (run evs st))
    = todosDeleted (analytics st) + Z.of_nat (deletions evs) /\
  todosCreated (analytics st) <= todosCreated (analytics (run evs st))
    <= todosCreated (analytics st) + Z.of_nat (length evs).
Proof.
  revert st. induction evs as [|ev evs IH]; intros st.
  - cbn. lia.
  - rewrite run_cons. destruct (IH (handle ev st)) as [Hdel Hcre].
    destruct (handle_counts ev st) as [Hdel1 Hcre1].
    assert (Hsplit : deletions (ev :: evs) = (deletions [ev] + deletions evs)%nat).
    { unfold deletions. cbn [List.filter].
      destruct ev; cbn [length]; reflexivity. }
    rewrite Hsplit. cbn [length]. lia.
Qed.

(** ** Binary64 division of integers *)

Section Binary64.

Lemma digits2_pos_bounds (p : positive) :
  2 ^ (Zpos (digits2_pos p) - 1) <= Zpos p < 2 ^ Zpos (digits2_pos p).
Proof.
  induction p as [p IH|p IH|]; cbn [digits2_pos].
  - rewrite Pos2Z.inj_succ.
    replace (Z.succ (Zpos (digits2_pos p)) - 1) with (Z.succ (Zpos (digits2_pos p) - 1)) by lia.
    rewrite !Z.pow_succ_r by lia. lia.
  - rewrite Pos2Z.inj_succ.
    replace (Z.succ (Zpos (digits2_pos p)) - 1) with (Z.succ (Zpos (digits2_pos p) - 1)) by lia.
    rewrite !Z.pow_succ_r by lia. lia.
  - cbn. lia.
Qed.

Lemma digits2_pos_unique (p : positive) (n : Z) :
  2 ^ (n - 1) <= Zpos p < 2 ^ n -> Zpos (digits2_pos p) = n.
Proof.
  intros [Hlo Hhi]. pose proof (digits2_pos_bounds p) as [Hlo' Hhi'].
  assert (0 < n).
  { destruct (Z.lt_total 0 n) as [?|[<-|Hneg]]; [assumption|cbn in Hhi; lia|].
    rewrite (Z.pow_neg_r 2 n) in Hhi by exact Hneg. lia. }
  assert (n - 1 < Zpos (digits2_pos p))
    by (apply (Z.pow_lt_mono_r_iff 2); lia).
  assert (Zpos (digits2_pos p) - 1 < n)
    by (apply (Z.pow_lt_mono_r_iff 2); lia).
  lia.
Qed.

Lemma iter_xO_pow (m n : positive) :
  Zpos (Pos.iter xO m n) = Zpos m * 2 ^ Zpos n.
Proof.
  induction n as [|n IH] using Pos.peano_ind.
  - cbn. lia.
  - rewrite Pos.iter_succ, Pos2Z.inj_succ, Z.pow_succ_r by lia.
    change (Zpos (Pos.iter xO m n)~0) with (2 * Zpos (Pos.iter xO m n)). lia.
Qed.


Lemma loc_of_record_of (m : Z) (l : location) :
  loc_of_shr_record (shr_record_of_loc m l) = l /\
  shr_m (shr_record_of_loc m l) = m.
Proof.
  destruct l as [|[]]; split; reflexivity.
Qed.

Lemma shr_fexp_53 (p : positive) (e : Z) (l : location) :
  Zpos (digits2_pos p) = 53 -> -1074 <= e ->
  shr_fexp 53 1024 (Zpos p) e l = (shr_record_of_loc (Zpos p) l, e).
Proof.
  intros Hd He. unfold shr_fexp, Zdigits2. rewrite Hd. unfold fexp, emin.
  replace (Z.max (53 + e - 53) (3 - 1024 - 53) - e) with 0 by lia.
  reflexivity.
Qed.

Lemma shr_fexp_54 (p : positive) (e : Z) (l : location) :
  Zpos (digits2_pos p) = 54 -> -1074 <= e ->
  shr_fexp 53 1024 (Zpos p) e l = (shr_1 (shr_record_of_loc (Zpos p) l), e + 1).
Proof.
  intros Hd He. unfold shr_fexp, Zdigits2. rewrite Hd. unfold fexp, emin.
  replace (Z.max (54 + e - 53) (3 - 1024 - 53) - e) with 1 by lia.
  reflexivity.
Qed.

Lemma round_nearest_even_cases (m : Z) (l : location) :
  round_nearest_even m l = m \/ round_nearest_even m l = m + 1.
Proof.
  destruct l as [|[]]; cbn; [left|destruct (Z.even m); [left|right]|left|right];
    reflexivity.
Qed.

(** The last step of [binary_round_aux] on a mantissa of 53 bits, or on
    2^53, which a rounding up can reach: the result is finite and has the
    value of the mantissa, counted in units of [2^e]. *)
Lemma round_finish (m1 e : Z) :
  2 ^ 52 <= m1 <= 2 ^ 53 -> -1074 <= e <= 900 ->
  exists m' e',
    (let '(mrs'', e'') := shr_fexp 53 1024 m1 e loc_Exact in
     match shr_m mrs'' with
     | Z0 => S754_zero false
     | Zpos m => if e'' <=? 1024 - 53 then S754_finite false m e''
                 else S754_infinity false
     | Zneg _ => S754_nan
     end) = S754_finite false m' e' /\
    e <= e' /\ Zpos m' * 2 ^ (e' - e) = m1.
Proof.
  intros Hm He. destruct m1 as [|p|p]; [cbn in Hm; lia| |lia].
  destruct (Z.eq_dec (Zpos p) (2 ^ 53)) as [Htop|Hbelow].
  - rewrite Htop. change (2 ^ 53) with (Zpos (2 ^ 53)).
    rewrite shr_fexp_54; [|reflexivity|lia].
    cbn [shr_m shr_record_of_loc shr_1 Pos.pow Pos.iter Pos.mul].
    destruct (Z.leb_spec (e + 1) (1024 - 53)); [|lia].
    eexists _, (e + 1). split; [reflexivity|]. split; [lia|].
    replace (e + 1 - e) with 1 by lia. reflexivity.
  - rewrite shr_fexp_53 by (try apply digits2_pos_unique; lia).
    cbn [shr_m shr_record_of_loc].
    destruct (Z.leb_spec e (1024 - 53)); [|lia].
    exists p, e. rewrite Z.sub_diag. split; [reflexivity|]. split; lia.
Qed.

(** Rounding a quotient mantissa of 53 bits: the value, in units of [2^e],
    is the mantissa or the mantissa plus 1. *)
Lemma binary_round_aux_53 (p : positive) (e : Z) (l : location) :
  2 ^ 52 <= Zpos p < 2 ^ 53 -> -1074 <= e <= 800 ->
  exists m' e',
    binary_round_aux 53 1024 false (Zpos p) e l = S754_finite false m' e' /\
    e <= e' /\
    (Zpos m' * 2 ^ (e' - e) = Zpos p \/ Zpos m' * 2 ^ (e' - e) = Zpos p + 1).
Proof.
  intros Hp He. unfold binary_round_aux.
  rewrite shr_fexp_53 by (try apply digits2_pos_unique; lia).
  destruct (loc_of_record_of (Zpos p) l) as [-> ->].
  destruct (round_nearest_even_cases (Zpos p) l) as [Hr|Hr]; rewrite Hr;
    (destruct (round_finish (round_nearest_even (Zpos p) l) e) as (m' & e' & Hfin & Hle & Hval);
     [lia | lia |]);
    rewrite Hr in Hfin, Hval; exists m', e';
    (split; [exact Hfin|]); (split; [exact Hle|]); [left|right]; exact Hval.
Qed.

(** Rounding a quotient mantissa of 54 bits: the last bit is shifted out,
    and the value, in units of [2^(e+1)], is the half of the mantissa, or
    that half plus 1, which takes an odd mantissa. *)
Lemma binary_round_aux_54 (p : positive) (e : Z) (l : location) :
  2 ^ 53 <= Zpos p < 2 ^ 54 -> -1074 <= e <= 800 ->
  exists m' e',
    binary_round_aux 53 1024 false (Zpos p) e l = S754_finite false m' e' /\
    e + 1 <= e' /\
    (Zpos m' * 2 ^ (e' - (e + 1)) = Zpos p / 2 \/
     (Zpos m' * 2 ^ (e' - (e + 1)) = Zpos p / 2 + 1 /\ Z.odd (Zpos p) = true)).
Proof.
  intros Hp He. unfold binary_round_aux.
  rewrite shr_fexp_54 by (try apply digits2_pos_unique; lia).
  destruct p as [p'|p'|]; [| |cbn in Hp; lia].
  - assert (Hhalf : Zpos p'~1 / 2 = Zpos p') by (symmetry; apply Z.div_unique with 1; lia).
    rewrite Hhalf.
    assert (Hstep : shr_m (shr_1 (shr_record_of_loc (Zpos p'~1) l)) = Zpos p')
      by (destruct l as [|[]]; reflexivity).
    rewrite Hstep.
    set (l' := loc_of_shr_record (shr_1 (shr_record_of_loc (Zpos p'~1) l))).
    destruct (round_finish (round_nearest_even (Zpos p') l') (e + 1))
      as (m' & e' & Hfin & Hle & Hval).
    { destruct (round_nearest_even_cases (Zpos p') l') as [-> | ->]; lia. }
    { lia. }
    exists m', e'. split; [exact Hfin|]. split; [exact Hle|].
    destruct (round_nearest_even_cases (Zpos p') l') as [Hr|Hr];
      rewrite Hr in Hval; [left; exact Hval | right; split; [exact Hval|reflexivity]].
  - assert (Hhalf : Zpos p'~0 / 2 = Zpos p') by (symmetry; apply Z.div_unique with 0; lia).
    rewrite Hhalf.
    assert (Hstep : shr_m (shr_1 (shr_record_of_loc (Zpos p'~0) l)) = Zpos p')
      by (destruct l as [|[]]; reflexivity).
    rewrite Hstep.
    assert (Hround : round_nearest_even (Zpos p')
              (loc_of_shr_record (shr_1 (shr_record_of_loc (Zpos p'~0) l)))
            = Zpos p')
      by (destruct l as [|[]]; reflexivity).
    rewrite Hround.
    destruct (round_finish (Zpos p') (e + 1)) as (m' & e' & Hfin & Hle & Hval);
      [lia | lia |].
    exists m', e'. split; [exact Hfin|]. split; [exact Hle|]. left. exact Hval.
Qed.

Lemma binary_round_aux_exact (p : positive) (e : Z) :
  2 ^ 52 <= Zpos p < 2 ^ 53 -> -1074 <= e <= 900 ->
  binary_round_aux 53 1024 false (Zpos p) e loc_Exact = S754_finite false p e.
Proof.
  intros Hp He. unfold binary_round_aux.
  rewrite shr_fexp_53 by (try apply digits2_pos_unique; lia).
  cbn [shr_m shr_record_of_loc loc_of_shr_record round_nearest_even].
  rewrite shr_fexp_53 by (try apply digits2_pos_unique; lia).
  cbn [shr_m shr_record_of_loc].
  destruct (Z.leb_spec e (1024 - 53)); [reflexivity|lia].
Qed.

Lemma digits2_pos_le_53 (p : positive) :
  Zpos p < 2 ^ 53 -> 1 <= Zpos (digits2_pos p) <= 53.
Proof.
  intros Hp. pose proof (digits2_pos_bounds p) as [Hlo _].
  split; [lia|].
  assert (Zpos (digits2_pos p) - 1 < 53); [|lia].
  apply (Z.pow_lt_mono_r_iff 2); lia.
Qed.

(** The double of a positive integer below 2^53 given with an exponent: the
    mantissa is shifted up to 53 bits, and nothing is rounded. *)
Lemma binary_round_normal (p : positive) (e : Z) :
  Zpos p < 2 ^ 53 -> -1000 <= e <= 800 ->
  exists m,
    binary_round 53 1024 false p e
      = S754_finite false m (Zpos (digits2_pos p) + e - 53) /\
    Zpos m = Zpos p * 2 ^ (53 - Zpos (digits2_pos p)) /\
    2 ^ 52 <= Zpos m < 2 ^ 53.
Proof.
  intros Hp He. pose proof (digits2_pos_le_53 p Hp) as Hd.
  pose proof (digits2_pos_bounds p) as Hb.
  unfold binary_round, shl_align, fexp, emin.
  set (d := Zpos (digits2_pos p)) in *.
  replace (Z.max (d + e - 53) (3 - 1024 - 53) - e) with (d - 53) by lia.
  replace (Z.max (d + e - 53) (3 - 1024 - 53)) with (d + e - 53) by lia.
  destruct (d - 53) as [|k|k] eqn:Hk; [|lia|].
  - assert (Hd53 : d = 53) by lia. rewrite Hd53 in *.
    replace (53 + e - 53) with e by lia.
    exists p. rewrite binary_round_aux_exact by lia.
    split; [reflexivity|]. cbn. split; lia.
  - assert (Hshift : Zpos (Pos.iter xO p k) = Zpos p * 2 ^ (53 - d)).
    { rewrite iter_xO_pow. f_equal. f_equal. lia. }
    assert (Hrange : 2 ^ 52 <= Zpos p * 2 ^ (53 - d) < 2 ^ 53).
    { assert (Hlo : 2 ^ (d - 1) * 2 ^ (53 - d) = 2 ^ 52)
        by (rewrite <- Z.pow_add_r by lia; f_equal; lia).
      assert (Hhi : 2 ^ d * 2 ^ (53 - d) = 2 ^ 53)
        by (rewrite <- Z.pow_add_r by lia; f_equal; lia).
      assert (0 < 2 ^ (53 - d)) by (apply Z.pow_pos_nonneg; lia).
      rewrite <- Hlo, <- Hhi. nia. }
    exists (Pos.iter xO p k). rewrite binary_round_aux_exact by lia.
    split; [reflexivity|]. split; [exact Hshift|]. rewrite Hshift. exact Hrange.
Qed.

(** The double of a positive integer below 2^53 is that integer. *)
Lemma num_normal (z : Z) :
  0 < z < 2 ^ 53 ->
  exists m e,
    JS.num z = S754_finite false m e /\
    -52 <= e <= 0 /\ Zpos m = z * 2 ^ (- e) /\ 2 ^ 52 <= Zpos m < 2 ^ 53.
Proof.
  intros Hz. destruct z as [|p|p]; [lia| |lia].
  destruct (binary_round_normal p 0) as (m & Hnum & Hval & Hrange); [lia|lia|].
  pose proof (digits2_pos_le_53 p ltac:(lia)) as Hd.
  exists m, (Zpos (digits2_pos p) + 0 - 53).
  split; [exact Hnum|]. split; [lia|]. split; [|exact Hrange].
  rewrite Hval. f_equal. f_equal. lia.
Qed.

(** [Math.floor] of a finite double whose value is [M] units of [2^e]. *)
Lemma Math_floor_scaled (m' : positive) (e' e M : Z) :
  e <= e' -> e <= 0 -> Zpos m' * 2 ^ (e' - e) = M ->
  JS.Math_floor (S754_finite false m' e') = JS.Int (M / 2 ^ (- e)).
Proof.
  intros Hle He <-. unfold JS.Math_floor. cbn [cond_Zopp]. f_equal.
  destruct (Z.leb_spec 0 e') as [Hpos|Hneg].
  - rewrite Z.shiftl_mul_pow2 by lia.
    replace (e' - e) with (e' + - e) by lia. rewrite Z.pow_add_r by lia.
    rewrite Z.mul_assoc, Z.div_mul; [reflexivity|].
    apply Z.pow_nonzero; lia.
  - rewrite Z.shiftr_div_pow2 by lia.
    replace (- e) with ((e' - e) + - e') by lia. rewrite Z.pow_add_r by lia.
    rewrite (Z.mul_comm (2 ^ (e' - e))), Z.div_mul_cancel_r; [reflexivity| |];
      apply Z.pow_nonzero; lia.
Qed.

(** The integer part of the division on two normal mantissas. *)
Lemma SFdiv_core_normal (mx my : positive) (ex ey : Z) :
  2 ^ 52 <= Zpos mx < 2 ^ 53 -> 2 ^ 52 <= Zpos my < 2 ^ 53 ->
  -52 <= ex <= 0 -> -52 <= ey <= 0 ->
  SFdiv_core_binary 53 1024 (Zpos mx) ex (Zpos my) ey
    = (Zpos mx * 2 ^ 53 / Zpos my, ex - ey - 53,
       new_location (Zpos my) ((Zpos mx * 2 ^ 53) mod Zpos my)).
Proof.
  intros Hmx Hmy Hex Hey. unfold SFdiv_core_binary, Zdigits2.
  rewrite (digits2_pos_unique mx 53), (digits2_pos_unique my 53) by lia.
  unfold fexp, emin.
  replace (Z.min (Z.max (53 + ex - (53 + ey) - 53) (3 - 1024 - 53)) (ex - ey))
    with (ex - ey - 53) by lia.
  replace (ex - ey - (ex - ey - 53)) with 53 by lia.
  rewrite Z.shiftl_mul_pow2 by lia.
  unfold Z.div, Z.modulo.
  destruct (Z.div_eucl (Zpos mx * 2 ^ 53) (Zpos my)) as [q r]. reflexivity.
Qed.

(** The arithmetic behind the floor of a rounded quotient: with [x / y] equal
    to [N / (D * P)] and [y] below [P], the integer part of [N / D], or that
    integer plus one, still has the integer part of [x / y] when divided by
    [P]. *)
Lemma floor_quotient_stable (x y N D P M : Z) :
  0 <= x -> 0 < y -> 0 < D -> 0 < P -> y < P ->
  N * y = x * D * P ->
  M = N / D \/ M = N / D + 1 ->
  M / P = x / y.
Proof.
  intros Hx Hy HD HP HyP Hval HM.
  assert (Hq : N / D / P = x / y).
  { rewrite Z.div_div by lia.
    rewrite <- (Z.div_mul_cancel_r x y (D * P)) by lia.
    rewrite <- (Z.div_mul_cancel_r N (D * P) y) by lia.
    f_equal; lia. }
  destruct HM as [->| ->]; [exact Hq|].
  rewrite <- Hq. set (q := N / D).
  pose proof (Z.div_mod N D ltac:(lia)) as HN.
  pose proof (Z.mod_pos_bound N D HD) as Hr. fold q in HN.
  set (r := N mod D) in *.
  pose proof (Z.div_mod q P ltac:(lia)) as Hdiv.
  pose proof (Z.mod_pos_bound q P HP) as Hmod.
  set (k := q / P) in *. set (t := q mod P) in *.
  symmetry. apply Z.div_unique_pos with (t + 1); [|lia].
  split; [lia|].
  destruct (Z.eq_dec (t + 1) P) as [Htop|]; [exfalso|lia].
  (* q + 1 = (k + 1) * P *)
  assert (Heq : D * P * ((k + 1) * y - x) = (D - r) * y) by nia.
  assert (0 < (k + 1) * y - x) by nia.
  assert (D * P <= (D - r) * y) by nia.
  assert ((D - r) * y <= D * y) by nia.
  nia.
Qed.

(** The floor of the quotient of two integers computed in binary64 is their
    integer quotient, for a dividend and a divisor below 2^53. *)
Lemma Math_floor_div (x y : Z) :
  0 <= x < 2 ^ 53 -> 0 < y < 2 ^ 53 ->
  JS.Math_floor (JS.div (JS.num x) (JS.num y)) = JS.Int (x / y).
Proof.
  intros Hx Hy.
  destruct (num_normal y Hy) as (my & ey & Hnumy & Hey & Hvaly & Hmy).
  destruct (Z.eq_dec x 0) as [->|Hx0].
  - rewrite Hnumy. reflexivity.
  - destruct (num_normal x ltac:(lia)) as (mx & ex & Hnumx & Hex & Hvalx & Hmx).
    rewrite Hnumx, Hnumy. unfold JS.div, SFdiv, JS.prec, JS.emax.
    rewrite SFdiv_core_normal by assumption. cbv beta iota. cbn [xorb].
    set (N := Zpos mx * 2 ^ 53). set (D := Zpos my).
    set (e := ex - ey - 53). set (P := 2 ^ (- e)).
    assert (HP : 0 < P) by (apply Z.pow_pos_nonneg; lia).
    assert (Hval : N * y = x * D * P).
    { unfold N, D, P, e. rewrite Hvalx, Hvaly.
      assert (Hpow : 2 ^ (- ey) * 2 ^ (- (ex - ey - 53)) = 2 ^ (- ex) * 2 ^ 53).
      { rewrite <- !Z.pow_add_r by lia. f_equal. lia. }
      nia. }
    assert (HyP : y < P).
    { assert (Hpow : P = 2 ^ (- ex) * 2 ^ (53 + ey)).
      { unfold P, e. rewrite <- Z.pow_add_r by lia. f_equal. lia. }
      assert (Hcut : 2 ^ (53 + ey) * 2 ^ (- ey) = 2 ^ 53).
      { rewrite <- Z.pow_add_r by lia. f_equal. lia. }
      assert (0 < 2 ^ (- ey)) by (apply Z.pow_pos_nonneg; lia).
      assert (0 < 2 ^ (- ex)) by (apply Z.pow_pos_nonneg; lia).
      assert (y < 2 ^ (53 + ey)) by nia.
      nia. }
    assert (Hq : 2 ^ 52 <= N / D < 2 ^ 54).
    { unfold N, D. split.
      - apply Z.div_le_lower_bound; [lia|].
        change (2 ^ 53) with (2 * 2 ^ 52). nia.
      - apply Z.div_lt_upper_bound; [lia|].
        change (2 ^ 54) with (2 * 2 ^ 53). nia. }
    destruct (N / D) as [|p|p] eqn:HND; [cbn in Hq; lia| |lia].
    destruct (Z.lt_ge_cases (Zpos p) (2 ^ 53)) as [Hsmall|Hbig].
    + destruct (binary_round_aux_53 p e (new_location D (N mod D)))
        as (m' & e' & -> & Hle & HM); [lia|unfold e; lia|].
      rewrite (Math_floor_scaled m' e' e (Zpos m' * 2 ^ (e' - e)))
        by (unfold e; lia || reflexivity).
      f_equal. fold P.
      apply (floor_quotient_stable x y N D P);
        first [lia | rewrite HND; exact HM].
    + destruct (binary_round_aux_54 p e (new_location D (N mod D)))
        as (m' & e' & -> & Hle & HM); [lia|unfold e; lia|].
      rewrite (Math_floor_scaled m' e' (e + 1) (Zpos m' * 2 ^ (e' - (e + 1))))
        by (unfold e; lia || reflexivity).
      f_equal.
      assert (HP2 : P = 2 * 2 ^ (- (e + 1))).
      { unfold P. rewrite <- Z.pow_succ_r by (unfold e; lia). f_equal. lia. }
      set (P' := 2 ^ (- (e + 1))) in *.
      assert (0 < P') by (apply Z.pow_pos_nonneg; unfold e; lia).
      pose proof (Z.div_mod (Zpos p) 2 ltac:(lia)) as Hhalf.
      pose proof (Z.mod_pos_bound (Zpos p) 2 ltac:(lia)) as Hbit.
      destruct HM as [HM|[HM Hodd]]; rewrite HM.
      * rewrite Z.div_div by lia. rewrite <- HP2.
        apply (floor_quotient_stable x y N D P);
          first [lia | left; symmetry; exact HND].
      * apply Z.odd_spec in Hodd as [h Hh].
        replace (Zpos p / 2 + 1) with ((Zpos p + 1) / 2)
          by (symmetry; apply Z.div_unique_pos with 0; lia).
        rewrite Z.div_div by lia. rewrite <- HP2.
        apply (floor_quotient_stable x y N D P);
          first [lia | right; rewrite HND; reflexivity].
Qed.

(** An integer below 2^53 written with trailing zero bits and the matching
    negative exponent normalises to the double of the integer. *)
Lemma binary_normalize_scaled (r k : Z) :
  0 <= r -> 0 <= k <= 52 -> r * 2 ^ k < 2 ^ 53 ->
  binary_normalize 53 1024 (r * 2 ^ k) (- k) false = JS.num r.
Proof.
  intros Hr Hk Hlt. assert (Hpow : 0 < 2 ^ k) by (apply Z.pow_pos_nonneg; lia).
  destruct r as [|pr|pr]; [reflexivity| |lia].
  destruct (Zpos pr * 2 ^ k) as [|p'|p'] eqn:Hp'; [lia| |lia].
  unfold JS.num, JS.prec, JS.emax, binary_normalize.
  assert (Hlt' : Zpos pr < 2 ^ 53) by nia.
  destruct (binary_round_normal p' (- k)) as (m & -> & Hm & _); [lia|lia|].
  destruct (binary_round_normal pr 0) as (m2 & -> & Hm2 & _); [lia|lia|].
  pose proof (digits2_pos_bounds pr) as Hb.
  pose proof (digits2_pos_le_53 pr Hlt') as Hd.
  assert (Hdig : Zpos (digits2_pos p') = Zpos (digits2_pos pr) + k).
  { apply digits2_pos_unique. rewrite <- Hp'.
    replace (Zpos (digits2_pos pr) + k - 1) with (Zpos (digits2_pos pr) - 1 + k) by lia.
    rewrite !Z.pow_add_r by lia. nia. }
  pose proof (digits2_pos_le_53 p' ltac:(lia)) as Hd'.
  rewrite Hdig in *. f_equal; [|lia].
  apply Pos2Z.inj. rewrite Hm, Hm2, <- Hp'.
  replace (53 - Zpos (digits2_pos pr))
    with (k + (53 - (Zpos (digits2_pos pr) + k))) by lia.
  rewrite Z.pow_add_r by lia. lia.
Qed.

(** The remainder of two integers below 2^53 is computed exactly. *)
Lemma rem_num (x y : Z) :
  0 <= x < 2 ^ 53 -> 0 < y < 2 ^ 53 ->
  JS.rem (JS.num x) (JS.num y) = JS.num (x mod y).
Proof.
  intros Hx Hy.
  destruct (num_normal y Hy) as (my & ey & Hnumy & Hey & Hvaly & Hmy).
  destruct (Z.eq_dec x 0) as [->|Hx0].
  - rewrite Hnumy, Z.mod_0_l by lia. reflexivity.
  - destruct (num_normal x ltac:(lia)) as (mx & ex & Hnumx & Hex & Hvalx & Hmx).
    rewrite Hnumx, Hnumy. unfold JS.rem, JS.prec, JS.emax. cbn [cond_Zopp].
    set (e := Z.min ex ey).
    rewrite !Z.shiftl_mul_pow2 by lia. rewrite Hvalx, Hvaly.
    assert (HX : x * 2 ^ (- ex) * 2 ^ (ex - e) = x * 2 ^ (- e)).
    { rewrite <- Z.mul_assoc, <- Z.pow_add_r by lia. do 2 f_equal. lia. }
    assert (HY : y * 2 ^ (- ey) * 2 ^ (ey - e) = y * 2 ^ (- e)).
    { rewrite <- Z.mul_assoc, <- Z.pow_add_r by lia. do 2 f_equal. lia. }
    rewrite HX, HY.
    assert (Hpow : 0 < 2 ^ (- e)) by (apply Z.pow_pos_nonneg; lia).
    rewrite Z.rem_mod_nonneg by nia.
    rewrite Z.mul_mod_distr_r by lia.
    pose proof (Z.mod_pos_bound x y ltac:(lia)) as Hr.
    pose proof (Z.mod_le x y ltac:(lia) ltac:(lia)) as Hrx.
    replace e with (- (- e)) at 2 by lia.
    apply binary_normalize_scaled; [lia|lia|].
    assert (Hex' : 0 < 2 ^ (- ex)) by (apply Z.pow_pos_nonneg; lia).
    assert (Hey' : 0 < 2 ^ (- ey)) by (apply Z.pow_pos_nonneg; lia).
    unfold e. destruct (Z.min_spec ex ey) as [[_ ->]|[_ ->]]; nia.
Qed.

(** Dividing by 1 returns the dividend. *)
Lemma div_num_1 (x : Z) :
  0 <= x < 2 ^ 53 -> JS.div (JS.num x) (JS.num 1) = JS.num x.
Proof.
  intros Hx. destruct (Z.eq_dec x 0) as [->|Hx0]; [reflexivity|].
  destruct (num_normal x ltac:(lia)) as (mx & ex & Hnumx & Hex & Hvalx & Hmx).
  rewrite Hnumx. change (JS.num 1) with (S754_finite false (2 ^ 52) (-52)).
  unfold JS.div, SFdiv, JS.prec, JS.emax.
  rewrite SFdiv_core_normal by (cbn; lia). cbv beta iota. cbn [xorb].
  change (Zpos (2 ^ 52)) with (2 ^ 52).
  replace (Zpos mx * 2 ^ 53) with (Zpos mx~0 * 2 ^ 52)
    by (change (2 ^ 53) with (2 * 2 ^ 52); lia).
  rewrite Z.div_mul, Z.mod_mul by lia.
  replace (ex - -52 - 53) with (ex - 1) by lia.
  change (new_location (2 ^ 52) 0) with loc_Exact.
  unfold binary_round_aux.
  rewrite shr_fexp_54 by (try apply digits2_pos_unique; lia).
  cbn [shr_record_of_loc shr_1 shr_m loc_of_shr_record round_nearest_even orb].
  rewrite shr_fexp_53 by (try apply digits2_pos_unique; lia).
  cbn [shr_m shr_record_of_loc].
  replace (ex - 1 + 1) with ex by lia.
  destruct (Z.leb_spec ex (1024 - 53)); [reflexivity|lia].
Qed.

End Binary64.

(** Dividing a positive integer below 2^53 by itself gives 1. *)
Lemma div_num_self (t : Z) :
  0 < t < 2 ^ 53 ->
  JS.div (JS.num t) (JS.num t) = S754_finite false (2 ^ 52) (-52).
Proof.
  intros Ht.
  destruct (num_normal t Ht) as (m & e & Hnum & He & Hval & Hm).
  rewrite Hnum. unfold JS.div, SFdiv, JS.prec, JS.emax.
  rewrite SFdiv_core_normal by assumption. cbv beta iota. cbn [xorb].
  rewrite (Z.mul_comm (Zpos m)), Z.div_mul, Z.mod_mul by lia.
  replace (e - e - 53) with (-53) by lia.
  assert (Hloc : new_location (Zpos m) 0 = loc_Exact)
    by (unfold new_location; destruct (Z.even (Zpos m)); reflexivity).
  rewrite Hloc. reflexivity.
Qed.

(** ** Derived metrics, exactly *)

(** X16. For a session that has lasted a non-negative number of
    milliseconds below 2^53, the current session duration shown is exact:
    the minutes are the integer quotient of the milliseconds by 60000 and
    the seconds the integer quotient by 1000 of what remains, the binary64
    division and remainder losing nothing before the floor. *)
Theorem getSessionDuration_exact (now : Z) (a : Analytics) :
  0 <= now - sessionStart a < 2 ^ 53 ->
  getSessionDuration now a
    = pretty ((now - sessionStart a) / 60000) +:+ "m "
      +:+ pretty ((now - sessionStart a) mod 60000 / 1000) +:+ "s".
Proof.
  intros Hd. unfold getSessionDuration.
  pose proof (Z.mod_pos_bound (now - sessionStart a) 60000 ltac:(lia)) as Hr.
  rewrite Math_floor_div, rem_num, Math_floor_div by (cbn; lia).
  reflexivity.
Qed.

Lemma getSessionDuration_exact_witness :
  getSessionDuration 1700000754321 (initialAnalytics 1700000000000)
    = "12m 34s".
Proof.
  rewrite (getSessionDuration_exact 1700000754321 (initialAnalytics 1700000000000)).
  - vm_compute. reflexivity.
  - vm_compute. split; [discriminate | reflexivity].
Defined.

(** X17. With exactly one session counted, the average session duration
    shown is the current session duration, for a session of a non-negative
    length below 2^53 ms. *)
Theorem getAverageSessionDuration_one_session (now : Z) (a : Analytics) :
  sessionsCount a = 1 -> 0 <= now - sessionStart a < 2 ^ 53 ->
  getAverageSessionDuration now a = getSessionDuration now a.
Proof.
  intros Hone Hd. unfold getAverageSessionDuration, getSessionDuration.
  rewrite Hone. cbn [Z.eqb]. rewrite div_num_1 by exact Hd. reflexivity.
Qed.

Lemma getAverageSessionDuration_one_session_witness :
  let a := analytics (pageLoad 1700000000000 1700000000004
                        (mkStorage None None)) in
  getAverageSessionDuration 1700000754321 a
    = getSessionDuration 1700000754321 a.
Proof.
  intros a. apply (getAverageSessionDuration_one_session 1700000754321 a).
  - reflexivity.
  - vm_compute. split; [discriminate | reflexivity].
Defined.

(** X18. The two ends of the completion rate, for a number of created tasks
    between 1 and 2^53: with no task completed it shows 0, and with as many
    completions counted as tasks created it shows 100. *)
Theorem completionRate_extremes (a : Analytics) :
  0 < todosCreated a < 2 ^ 53 ->
  (todosCompleted a = 0 -> completionRate a = JS.Int 0) /\
  (todosCompleted a = todosCreated a -> completionRate a = JS.Int 100).
Proof.
  intros Ht. unfold completionRate.
  destruct (Z.gtb_spec (todosCreated a) 0) as [_|Hle]; [|lia].
  split; intros Hc; rewrite Hc.
  - destruct (num_normal (todosCreated a) Ht) as (m & e & -> & _).
    reflexivity.
  - rewrite div_num_self by exact Ht. reflexivity.
Qed.

Lemma completionRate_extremes_witness :
  completionRate (withTasks 0 7) = JS.Int 0 /\
  completionRate (withTasks 7 7) = JS.Int 100.
Proof.
  split.
  - apply (proj1 (completionRate_extremes (withTasks 0 7) ltac:(cbn; lia))).
    reflexivity.
  - apply (proj2 (completionRate_extremes (withTasks 7 7) ltac:(cbn; lia))).
    reflexivity.
Defined.

Lemma completionRate_exact_below_40_witness :
  completionRate (withTasks 2 3) = JS.Int (exactRate 2 3).
Proof.
  apply (completionRate_exact_below_40 (withTasks 2 3)); cbn; lia.
Defined.

Lemma addTodo_blank_witness :
  let st := setInputValue (JS.lit "   ") (initialState 0) in
  addTodo 5 5 st = st.
Proof.
  intros st. apply (addTodo_blank 5 5 st).
  vm_compute. repeat constructor.
Defined.

(** ** Views and order *)

(** X22. Deleting acts on every view as on the list: the view after
    [deleteTodo] is the view before it without the tasks that carry the id,
    the other tasks keeping their places. *)
Theorem filteredTodos_deleteTodo (i : Z) (st : State) :
  filteredTodos (deleteTodo i st)
    = List.filter (fun todo => negb (id todo =? i)) (filteredTodos st).
Proof.
  unfold filteredTodos, deleteTodo. cbn [todos filter].
  apply filter_filter_comm.
Qed.

(** X23. A task that is added shows up last in the unfiltered and in the
    active view, and the completed view does not change. *)
Theorem filteredTodos_addTodo (tId tCreated : Z) (st : State) :
  JS.trim (inputValue st) <> [] ->
  let newTodo := {| id := tId; text := JS.trim (inputValue st);
                    completed := false; createdAt := tCreated |} in
  filteredTodos (addTodo tId tCreated st)
    = match filter st with
      | Completed => filteredTodos st
      | _ => filteredTodos st ++ [newTodo]
      end.
Proof.
  intros Hne newTodo. subst newTodo. unfold filteredTodos, addTodo.
  destruct (JS.trim (inputValue st)) as [|c r]; [contradiction|].
  cbn [todos filter]. rewrite List.filter_app. cbn [List.filter].
  destruct (filter st); cbn [filterCallback completed negb];
    [reflexivity | reflexivity | apply app_nil_r].
Qed.

Lemma filteredTodos_addTodo_witness :
  let st :=
    setFilter Active
      (run [Change (JS.lit "a"); AddTodo 5 5; Change (JS.lit " b ")]
           (initialState 0)) in
  filteredTodos (addTodo 6 6 st)
    = filteredTodos st
      ++ [ {| id := 6; text := JS.lit "b"; completed := false;
              createdAt := 6 |} ].
Proof.
  intros st. apply (filteredTodos_addTodo 6 6 st). vm_compute. discriminate.
Defined.

Lemma StronglySorted_snoc (l : list Z) (x : Z) :
  StronglySorted Z.lt l -> Forall (fun i => i < x) l ->
  StronglySorted Z.lt (l ++ [x]).
Proof.
  induction l as [|a l IH]; intros Hsorted Hall; cbn [app].
  - repeat constructor.
  - inversion Hsorted as [|? ? Hrest Hhead]; subst.
    inversion Hall as [|? ? Ha Hl]; subst.
    constructor; [apply IH; assumption|].
    apply Forall_app. split; [exact Hhead|]. constructor; [exact Ha|constructor].
Qed.

Lemma StronglySorted_ids_filter (p : Todo -> bool) (l : list Todo) :
  StronglySorted Z.lt (map (fun todo => id todo) l) ->
  StronglySorted Z.lt (map (fun todo => id todo) (List.filter p l)).
Proof.
  induction l as [|todo rest IH]; intros Hsorted; [constructor|].
  cbn [map] in Hsorted. inversion Hsorted as [|? ? Hrest Hhead]; subst.
  cbn [List.filter]. destruct (p todo); [|apply IH, Hrest].
  cbn [map]. constructor; [apply IH, Hrest|].
  apply List.Forall_forall. intros i Hin.
  apply in_map_iff in Hin as (t & <- & Ht). apply filter_In in Ht as [Ht _].
  rewrite List.Forall_forall in Hhead. apply Hhead.
  apply in_map_iff. exists t. split; [reflexivity | exact Ht].
Qed.

(** X24. Under a clock that moves on between two additions, the ids stay
    strictly increasing along the list, so the list is in the order of
    creation and its ids are pairwise distinct: no event reorders it. *)
Theorem handle_ids_increasing (ev : Event) (st : State) :
  StronglySorted Z.lt (ids st) -> laterId ev st ->
  StronglySorted Z.lt (ids (handle ev st)) /\ NoDup (ids (handle ev st)).
Proof.
  intros Hsorted Hlater.
  assert (Hnext : StronglySorted Z.lt (ids (handle ev st))).
  { destruct ev as [v|tId tCreated|i|i|f|b]; cbn [handle]; try exact Hsorted.
    - unfold addTodo. destruct (JS.trim (inputValue st)) as [|c r];
        [exact Hsorted|].
      unfold ids. cbn [todos]. rewrite map_app. cbn [map id].
      apply StronglySorted_snoc; [exact Hsorted | exact Hlater].
    - rewrite ids_toggleTodo. exact Hsorted.
    - unfold ids, deleteTodo. cbn [todos].
      apply StronglySorted_ids_filter. exact Hsorted. }
  split; [exact Hnext|].
  induction Hnext as [|i l _ IH Hall]; [constructor|].
  constructor; [|exact IH].
  intros Hin. rewrite Forall_forall in Hall. specialize (Hall i Hin). lia.
Qed.

Lemma handle_ids_increasing_witness :
  let st :=
    run [Change (JS.lit "a"); AddTodo 5 5; Change (JS.lit "b")]
        (initialState 0) in
  StronglySorted Z.lt (ids (handle (AddTodo 6 6) st)) /\
  NoDup (ids (handle (AddTodo 6 6) st)).
Proof.
  intros st. apply (handle_ids_increasing (AddTodo 6 6) st).
  - vm_compute. repeat constructor.
  - vm_compute. repeat constructor.
Defined.

(** ** Binary64 products and the completion rate *)

Section Binary64Product.

(** The last step of [binary_round_aux] again, with the shape of the
    result: its mantissa has 53 bits. *)
Lemma round_finish_normal (m1 e : Z) :
  2 ^ 52 <= m1 <= 2 ^ 53 -> -1074 <= e <= 900 ->
  exists m' e',
    (let '(mrs'', e'') := shr_fexp 53 1024 m1 e loc_Exact in
     match shr_m mrs'' with
     | Z0 => S754_zero false
     | Zpos m => if e'' <=? 1024 - 53 then S754_finite false m e''
                 else S754_infinity false
     | Zneg _ => S754_nan
     end) = S754_finite false m' e' /\
    e <= e' <= e + 1 /\ Zpos m' * 2 ^ (e' - e) = m1 /\
    2 ^ 52 <= Zpos m' < 2 ^ 53.
Proof.
  intros Hm He. destruct m1 as [|p|p]; [cbn in Hm; lia| |lia].
  destruct (Z.eq_dec (Zpos p) (2 ^ 53)) as [Htop|Hbelow].
  - rewrite Htop. change (2 ^ 53) with (Zpos (2 ^ 53)).
    rewrite shr_fexp_54; [|reflexivity|lia].
    cbn [shr_m shr_record_of_loc shr_1 Pos.pow Pos.iter Pos.mul].
    destruct (Z.leb_spec (e + 1) (1024 - 53)); [|lia].
    eexists _, (e + 1). split; [reflexivity|]. split; [lia|].
    replace (e + 1 - e) with 1 by lia. split; [reflexivity|]. cbn. lia.
  - rewrite shr_fexp_53 by (try apply digits2_pos_unique; lia).
    cbn [shr_m shr_record_of_loc].
    destruct (Z.leb_spec e (1024 - 53)); [|lia].
    exists p, e. rewrite Z.sub_diag. split; [reflexivity|]. split; lia.
Qed.

Lemma shr_1_m (mrs : shr_record) :
  0 <= shr_m mrs -> shr_m (shr_1 mrs) = shr_m mrs / 2.
Proof.
  destruct mrs as [m r s]. cbn [shr_m]. intros Hm.
  destruct m as [|[p|p|]|p]; cbn [shr_1 shr_m]; [reflexivity| | |reflexivity|lia].
  - apply Z.div_unique_pos with 1; lia.
  - apply Z.div_unique_pos with 0; lia.
Qed.

(** Shifting [n] bits out leaves the quotient by [2^n]. *)
Lemma iter_shr_1_m (n : positive) (mrs : shr_record) :
  0 <= shr_m mrs ->
  shr_m (SpecFloat.iter_pos shr_1 n mrs) = shr_m mrs / 2 ^ Zpos n.
Proof.
  revert mrs. induction n as [n IH|n IH|]; intros mrs Hm; cbn [SpecFloat.iter_pos].
  - assert (H1 : 0 <= shr_m (shr_1 mrs))
      by (rewrite shr_1_m by exact Hm; apply Z.div_pos; lia).
    assert (H2 : 0 <= shr_m (SpecFloat.iter_pos shr_1 n (shr_1 mrs)))
      by (rewrite IH by exact H1; apply Z.div_pos; [exact H1|]; apply Z.pow_pos_nonneg; lia).
    rewrite IH, IH, shr_1_m by assumption.
    assert (0 < 2 ^ Zpos n) by (apply Z.pow_pos_nonneg; lia).
    rewrite !Z.div_div by lia. f_equal.
    replace (Zpos n~1) with (1 + Zpos n + Zpos n) by lia.
    rewrite !Z.pow_add_r by lia. change (2 ^ 1) with 2. lia.
  - assert (H2 : 0 <= shr_m (SpecFloat.iter_pos shr_1 n mrs))
      by (rewrite IH by exact Hm; apply Z.div_pos; [exact Hm|]; apply Z.pow_pos_nonneg; lia).
    rewrite IH, IH by assumption.
    assert (0 < 2 ^ Zpos n) by (apply Z.pow_pos_nonneg; lia).
    rewrite !Z.div_div by lia. f_equal.
    replace (Zpos n~0) with (Zpos n + Zpos n) by lia.
    rewrite !Z.pow_add_r by lia. reflexivity.
  - apply shr_1_m. exact Hm.
Qed.

(** Rounding a mantissa of [53 + n] bits: [n] bits are shifted out, the
    result is a normal double, and its value, in units of [2^(e+n)], is the
    quotient of the mantissa by [2^n] or that quotient plus 1. *)
Lemma binary_round_aux_wide (p : positive) (e n : Z) (l : location) :
  0 <= n -> 2 ^ (52 + n) <= Zpos p < 2 ^ (53 + n) ->
  -1074 <= e -> e + n <= 800 ->
  exists m' e',
    binary_round_aux 53 1024 false (Zpos p) e l = S754_finite false m' e' /\
    e + n <= e' <= e + n + 1 /\
    2 ^ 52 <= Zpos m' < 2 ^ 53 /\
    (Zpos m' * 2 ^ (e' - (e + n)) = Zpos p / 2 ^ n \/
     Zpos m' * 2 ^ (e' - (e + n)) = Zpos p / 2 ^ n + 1).
Proof.
  intros Hn Hp He Hen.
  assert (Hpow : 0 < 2 ^ n) by (apply Z.pow_pos_nonneg; lia).
  assert (Hlo : 2 ^ (52 + n) = 2 ^ 52 * 2 ^ n) by (apply Z.pow_add_r; lia).
  assert (Hhi : 2 ^ (53 + n) = 2 ^ 53 * 2 ^ n) by (apply Z.pow_add_r; lia).
  assert (HM : 2 ^ 52 <= Zpos p / 2 ^ n < 2 ^ 53).
  { split; [apply Z.div_le_lower_bound | apply Z.div_lt_upper_bound]; lia. }
  assert (Hshift : exists mrs,
            shr_fexp 53 1024 (Zpos p) e l = (mrs, e + n) /\
            shr_m mrs = Zpos p / 2 ^ n).
  { unfold shr_fexp, Zdigits2.
    rewrite (digits2_pos_unique p (53 + n))
      by (replace (53 + n - 1) with (52 + n) by lia; exact Hp).
    unfold fexp, emin.
    replace (Z.max (53 + n + e - 53) (3 - 1024 - 53) - e) with n by lia.
    destruct n as [|k|k]; [| |lia].
    - eexists. split; [replace (e + 0) with e by lia; reflexivity|].
      rewrite Z.div_1_r. apply (loc_of_record_of (Zpos p) l).
    - eexists. split; [reflexivity|].
      rewrite iter_shr_1_m;
        rewrite (proj2 (loc_of_record_of (Zpos p) l)); [reflexivity|lia]. }
  destruct Hshift as (mrs & Hshr & Hm). unfold binary_round_aux.
  rewrite Hshr, Hm.
  set (M := Zpos p / 2 ^ n) in *. set (l' := loc_of_shr_record mrs).
  destruct (round_finish_normal (round_nearest_even M l') (e + n))
    as (m' & e' & Hfin & Hle & Hval & Hnormal).
  { destruct (round_nearest_even_cases M l') as [-> | ->]; lia. }
  { lia. }
  exists m', e'. split; [exact Hfin|]. split; [lia|]. split; [exact Hnormal|].
  rewrite Hval. apply round_nearest_even_cases.
Qed.

(** The quotient of two positive integers below 2^53, as binary64 gives it:
    a normal double [m1 * 2^e1] that is within two units of [2^e] of the
    exact quotient, where [2^52 <= (c / t) / 2^e < 2^54]. With [P] for
    [2^(-e)] and [W] for the double counted in units of [2^e], that is
    [|W * t - c * P| <= 2 * t]. *)
Lemma div_num_error (c t : Z) :
  0 < c < 2 ^ 53 -> 0 < t < 2 ^ 53 ->
  exists m1 e1 e,
    JS.div (JS.num c) (JS.num t) = S754_finite false m1 e1 /\
    2 ^ 52 <= Zpos m1 < 2 ^ 53 /\
    -105 <= e <= -1 /\ e <= e1 <= e + 2 /\
    - (2 * t) <= Zpos m1 * 2 ^ (e1 - e) * t - c * 2 ^ (- e) <= 2 * t /\
    2 ^ 52 * t <= c * 2 ^ (- e) < 2 ^ 54 * t.
Proof.
  intros Hc Ht.
  destruct (num_normal c Hc) as (mc & ec & Hnumc & Hec & Hvalc & Hmc).
  destruct (num_normal t Ht) as (mt & et & Hnumt & Het & Hvalt & Hmt).
  rewrite Hnumc, Hnumt. unfold JS.div, SFdiv, JS.prec, JS.emax.
  rewrite SFdiv_core_normal by assumption. cbv beta iota. cbn [xorb].
  set (N := Zpos mc * 2 ^ 53). set (D := Zpos mt).
  set (e := ec - et - 53). set (P := 2 ^ (- e)).
  assert (HP : 0 < P) by (apply Z.pow_pos_nonneg; unfold e; lia).
  assert (Hval : N * t = c * D * P).
  { unfold N, D, P, e. rewrite Hvalc, Hvalt.
    assert (Hpow : 2 ^ (- et) * 2 ^ (- (ec - et - 53)) = 2 ^ (- ec) * 2 ^ 53).
    { rewrite <- !Z.pow_add_r by lia. f_equal. lia. }
    nia. }
  assert (HN : 2 ^ 52 * D <= N < 2 ^ 54 * D).
  { unfold N, D. change (2 ^ 54) with (2 * 2 ^ 53).
    change (2 ^ 53) with (2 * 2 ^ 52) at 1. nia. }
  assert (Hq : 2 ^ 52 <= N / D < 2 ^ 54).
  { split; [apply Z.div_le_lower_bound | apply Z.div_lt_upper_bound];
      unfold D in *; lia. }
  pose proof (Z.div_mod N D ltac:(unfold D; lia)) as HND.
  pose proof (Z.mod_pos_bound N D ltac:(unfold D; lia)) as Hr.
  assert (Hmag : 2 ^ 52 * t <= c * P < 2 ^ 54 * t).
  { assert (0 < D) by (unfold D; lia). split; nia. }
  destruct (N / D) as [|p|p] eqn:Hquot; [cbn in Hq; lia| |lia].
  destruct (Z.lt_ge_cases (Zpos p) (2 ^ 53)) as [Hsmall|Hbig].
  - destruct (binary_round_aux_wide p e 0 (new_location D (N mod D)))
      as (m1 & e1 & -> & Hle & Hnormal & HW);
      [lia | cbn; lia | unfold e; lia | unfold e; lia |].
    exists m1, e1, e. split; [reflexivity|]. split; [exact Hnormal|].
    split; [unfold e; lia|]. split; [lia|]. split; [|exact Hmag].
    replace (e + 0) with e in HW by lia. rewrite Z.div_1_r in HW.
    fold P. set (W := Zpos m1 * 2 ^ (e1 - e)) in *.
    assert (HWq : Zpos p <= W <= Zpos p + 1) by lia.
    assert (HD : 0 < D) by (unfold D; lia).
    assert (- (2 * D) <= W * D - N <= 2 * D) by nia.
    assert (D * (W * t - c * P) = t * (W * D - N)) by nia.
    split; nia.
  - destruct (binary_round_aux_wide p e 1 (new_location D (N mod D)))
      as (m1 & e1 & -> & Hle & Hnormal & HW);
      [lia | cbn; lia | unfold e; lia | unfold e; lia |].
    exists m1, e1, e. split; [reflexivity|]. split; [exact Hnormal|].
    split; [unfold e; lia|]. split; [lia|]. split; [|exact Hmag].
    fold P. change (2 ^ 1) with 2 in HW.
    assert (Hunit : 2 ^ (e1 - e) = 2 * 2 ^ (e1 - (e + 1))).
    { rewrite <- Z.pow_succ_r by lia. f_equal. lia. }
    rewrite Hunit.
    set (U := Zpos m1 * 2 ^ (e1 - (e + 1))) in *.
    pose proof (Z.div_mod (Zpos p) 2 ltac:(lia)) as Hhalf.
    pose proof (Z.mod_pos_bound (Zpos p) 2 ltac:(lia)) as Hbit.
    assert (HWq : Zpos p - 1 <= 2 * U <= Zpos p + 2) by lia.
    assert (HD : 0 < D) by (unfold D; lia).
    assert (- (2 * D) <= 2 * U * D - N <= 2 * D) by nia.
    assert (D * (2 * U * t - c * P) = t * (2 * U * D - N)) by nia.
    replace (Zpos m1 * (2 * 2 ^ (e1 - (e + 1)))) with (2 * U) by (unfold U; lia).
    split; nia.
Qed.

(** The product of a normal double by 100 (which is [100 * 2^46 * 2^-46]):
    52 or 53 bits of the exact product are shifted out, and the result is
    within one unit of the last place of it. *)
Lemma mul_100_error (m1 : positive) (e1 : Z) :
  2 ^ 52 <= Zpos m1 < 2 ^ 53 -> -500 <= e1 <= 500 ->
  exists m3 e3 n,
    JS.mul (S754_finite false m1 e1) (JS.num 100) = S754_finite false m3 e3 /\
    52 <= n <= 53 /\
    e1 - 46 + n <= e3 <= e1 - 46 + n + 1 /\
    2 ^ 52 <= Zpos m3 < 2 ^ 53 /\
    2 ^ 52 * 2 ^ n <= Zpos m1 * (100 * 2 ^ 46) /\
    - 2 ^ n <= Zpos m3 * 2 ^ (e3 - (e1 - 46 + n)) * 2 ^ n
               - Zpos m1 * (100 * 2 ^ 46) <= 2 ^ n.
Proof.
  intros Hm He.
  change (JS.num 100) with (S754_finite false (100 * 2 ^ 46) (-46)).
  unfold JS.mul, SFmul, JS.prec, JS.emax. cbn [xorb].
  rewrite Pos2Z.inj_mul. change (Zpos (100 * 2 ^ 46)) with (100 * 2 ^ 46).
  set (Pm := Zpos m1 * (100 * 2 ^ 46)).
  assert (HPm : 2 ^ 104 <= Pm < 2 ^ 106).
  { unfold Pm. change (2 ^ 104) with (2 ^ 52 * 2 ^ 52).
    change (2 ^ 106) with (2 ^ 53 * 2 ^ 53).
    change (100 * 2 ^ 46) with 7036874417766400.
    change (2 ^ 52) with 4503599627370496 in *.
    change (2 ^ 53) with 9007199254740992 in *. nia. }
  destruct Pm as [|p|p] eqn:HPmp; [lia| |lia].
  destruct (Z.lt_ge_cases (Zpos p) (2 ^ 105)) as [Hsmall|Hbig].
  - destruct (binary_round_aux_wide p (e1 + -46) 52 loc_Exact)
      as (m3 & e3 & -> & Hle & Hnormal & HU); [lia | cbn; lia | lia | lia |].
    exists m3, e3, 52. split; [reflexivity|]. split; [lia|].
    split; [lia|]. split; [exact Hnormal|].
    split; [change (2 ^ 52 * 2 ^ 52) with (2 ^ 104); lia|].
    replace (e1 - 46 + 52) with (e1 + -46 + 52) by lia.
    set (U := Zpos m3 * 2 ^ (e3 - (e1 + -46 + 52))) in *.
    pose proof (Z.div_mod (Zpos p) (2 ^ 52) ltac:(lia)) as Hdiv.
    pose proof (Z.mod_pos_bound (Zpos p) (2 ^ 52) ltac:(lia)) as Hmod.
    destruct HU as [HU|HU]; rewrite HU; lia.
  - destruct (binary_round_aux_wide p (e1 + -46) 53 loc_Exact)
      as (m3 & e3 & -> & Hle & Hnormal & HU); [lia | cbn; lia | lia | lia |].
    exists m3, e3, 53. split; [reflexivity|]. split; [lia|].
    split; [lia|]. split; [exact Hnormal|].
    split; [change (2 ^ 52 * 2 ^ 53) with (2 ^ 105); lia|].
    replace (e1 - 46 + 53) with (e1 + -46 + 53) by lia.
    set (U := Zpos m3 * 2 ^ (e3 - (e1 + -46 + 53))) in *.
    pose proof (Z.div_mod (Zpos p) (2 ^ 53) ltac:(lia)) as Hdiv.
    pose proof (Z.mod_pos_bound (Zpos p) (2 ^ 53) ltac:(lia)) as Hmod.
    destruct HU as [HU|HU]; rewrite HU; lia.
Qed.

(** [Math.round] of a finite double whose value is [M] units of [2^e]. *)
Lemma Math_round_scaled (m' : positive) (e' e M : Z) :
  e <= e' -> e <= 0 -> Zpos m' * 2 ^ (e' - e) = M ->
  JS.Math_round (S754_finite false m' e')
    = JS.Int ((2 * M + 2 ^ (- e)) / (2 * 2 ^ (- e))).
Proof.
  intros Hle He <-. unfold JS.Math_round. cbn [cond_Zopp]. f_equal.
  assert (HP : 0 < 2 ^ (- e)) by (apply Z.pow_pos_nonneg; lia).
  destruct (Z.leb_spec 0 e') as [Hpos|Hneg].
  - rewrite Z.shiftl_mul_pow2 by lia.
    replace (e' - e) with (e' + - e) by lia. rewrite Z.pow_add_r by lia.
    set (I := Zpos m' * 2 ^ e'). set (P := 2 ^ (- e)) in *.
    replace (2 * (Zpos m' * (2 ^ e' * P)) + P) with ((2 * I + 1) * P)
      by (unfold I; ring).
    rewrite Z.div_mul_cancel_r by lia.
    apply Z.div_unique_pos with 1; lia.
  - rewrite Z.shiftr_div_pow2, Z.shiftl_1_l by lia.
    replace (- e' + 1) with (Z.succ (- e')) by lia.
    rewrite Z.pow_succ_r by lia.
    assert (Hsplit : 2 ^ (- e) = 2 ^ (e' - e) * 2 ^ (- e'))
      by (rewrite <- Z.pow_add_r by lia; f_equal; lia).
    rewrite Hsplit.
    assert (0 < 2 ^ (e' - e)) by (apply Z.pow_pos_nonneg; lia).
    assert (0 < 2 ^ (- e')) by (apply Z.pow_pos_nonneg; lia).
    replace (2 * (Zpos m' * 2 ^ (e' - e)) + 2 ^ (e' - e) * 2 ^ (- e'))
      with ((2 * Zpos m' + 2 ^ (- e')) * 2 ^ (e' - e)) by ring.
    replace (2 * (2 ^ (e' - e) * 2 ^ (- e')))
      with (2 * 2 ^ (- e') * 2 ^ (e' - e)) by ring.
    rewrite Z.div_mul_cancel_r by lia. reflexivity.
Qed.

(** The error of the two roundings, in integers. [W] is the quotient in
    units of [1 / P] and [U] the product in units of [1 / K]; [T] and [S]
    are the powers of two that relate the units. *)
Lemma rate_error_bound (c t P W T m1 S U K : Z) :
  0 < c <= 2 ^ 40 -> 0 < t -> 0 < T -> 0 < S -> 0 < K -> 0 < m1 ->
  W = m1 * T ->
  - (2 * t) <= W * t - c * P <= 2 * t ->
  2 ^ 52 * t <= c * P ->
  2 ^ 52 * S <= m1 * (100 * 2 ^ 46) ->
  - S <= U * S - m1 * (100 * 2 ^ 46) <= S ->
  K * S * T = 2 ^ 46 * P ->
  - K < 2 * (t * U - 100 * c * K) < K.
Proof.
  intros Hc Ht HT HS HK Hm1 HW Herr Hmag HPm HU Hunits.
  change (2 ^ 40) with 1099511627776 in *.
  change (2 ^ 52) with 4503599627370496 in *.
  change (2 ^ 46) with 70368744177664 in *.
  set (X := t * U - 100 * c * K).
  set (eps := W * t - c * P) in *. set (del := U * S - m1 * (100 * 70368744177664)) in *.
  assert (HX : X * (S * T) = 100 * 70368744177664 * eps + t * T * del).
  { unfold X, eps, del. rewrite HW.
    replace ((t * U - 100 * c * K) * (S * T))
      with (t * U * S * T - 100 * c * (K * S * T)) by ring.
    rewrite Hunits. ring. }
  assert (HP : 4096 * t <= P) by nia.
  assert (HST : 4503599627370496 * (t * T * S)
                <= 100 * 70368744177664 * (c * P + 2 * t)).
  { assert (4503599627370496 * S * T <= W * (100 * 70368744177664)) by nia.
    assert (W * t <= c * P + 2 * t) by (unfold eps in Herr; lia).
    nia. }
  assert (HcP : c * P <= 1099511627776 * P) by nia.
  assert (Hbound : 2 * (100 * 70368744177664 * (2 * t) + t * T * S)
                   < K * S * T).
  { rewrite Hunits. nia. }
  assert (Habs : - (100 * 70368744177664 * (2 * t) + t * T * S)
                 <= X * (S * T)
                 <= 100 * 70368744177664 * (2 * t) + t * T * S).
  { rewrite HX. assert (0 < t * T) by nia. split; nia. }
  assert (HSTpos : 0 < S * T) by nia.
  replace (K * S * T) with (K * (S * T)) in Hbound by ring.
  split; nia.
Qed.

(** A number within less than [1 / (2 * t)] of [100 * c / t] rounds to the
    integer that [100 * c / t] rounds to, or to the one below when
    [100 * c / t] is half-way between the two. *)
Lemma round_near_fraction (c t U K : Z) :
  0 <= c -> 0 < t -> 0 < K ->
  - K < 2 * (t * U - 100 * c * K) < K ->
  let r := (2 * U + K) / (2 * K) in
  r = (200 * c + t) / (2 * t) \/
  (r = (200 * c + t) / (2 * t) - 1 /\ 200 * c = (2 * r + 1) * t).
Proof.
  intros Hc Ht HK Herr r.
  pose proof (Z.div_mod (2 * U + K) (2 * K) ltac:(lia)) as HR.
  pose proof (Z.mod_pos_bound (2 * U + K) (2 * K) ltac:(lia)) as HRm.
  pose proof (Z.div_mod (200 * c + t) (2 * t) ltac:(lia)) as HE.
  pose proof (Z.mod_pos_bound (200 * c + t) (2 * t) ltac:(lia)) as HEm.
  fold r in HR. set (E := (200 * c + t) / (2 * t)) in *.
  set (x := (2 * U + K) mod (2 * K)) in *.
  set (y := (200 * c + t) mod (2 * t)) in *.
  assert (Hdiff : 2 * t * (2 * U + K) - (200 * c + t) * (2 * K)
                  = 4 * (t * U - 100 * c * K)) by ring.
  assert (Hup : r <= E).
  { destruct (Z.le_gt_cases r E) as [|Hgt]; [assumption|exfalso].
    assert (H1 : 2 * K * (E + 1) <= 2 * K * r)
      by (apply Z.mul_le_mono_nonneg_l; lia).
    assert (H2 : 2 * t * (2 * K * (E + 1)) <= 2 * t * (2 * U + K))
      by (apply Z.mul_le_mono_nonneg_l; lia).
    assert (H3 : (200 * c + t + 1) * (2 * K) <= 2 * t * (E + 1) * (2 * K))
      by (apply Z.mul_le_mono_nonneg_r; lia).
    lia. }
  assert (Hlow : E - 1 <= r /\ (y <> 0 -> E <= r)).
  { split.
    - destruct (Z.le_gt_cases (E - 1) r) as [|Hlt]; [assumption|exfalso].
      assert (H1 : 2 * K * (r + 1) <= 2 * K * (E - 1))
        by (apply Z.mul_le_mono_nonneg_l; lia).
      assert (H2 : 2 * t * (2 * U + K) <= 2 * t * (2 * K * (E - 1)))
        by (apply Z.mul_le_mono_nonneg_l; lia).
      assert (H3 : 2 * t * (E - 1) * (2 * K) + 2 * t * (2 * K)
                   <= (200 * c + t) * (2 * K)).
      { replace (2 * t * (E - 1) * (2 * K) + 2 * t * (2 * K))
          with (2 * t * E * (2 * K)) by ring.
        apply Z.mul_le_mono_nonneg_r; lia. }
      assert (2 * K <= 2 * t * (2 * K)) by nia.
      lia.
    - intros Hy. destruct (Z.le_gt_cases E r) as [|Hlt]; [assumption|exfalso].
      assert (H1 : 2 * K * (r + 1) <= 2 * K * E)
        by (apply Z.mul_le_mono_nonneg_l; lia).
      assert (H2 : 2 * t * (2 * U + K) <= 2 * t * (2 * K * E))
        by (apply Z.mul_le_mono_nonneg_l; lia).
      assert (H3 : (2 * t * E + 1) * (2 * K) <= (200 * c + t) * (2 * K))
        by (apply Z.mul_le_mono_nonneg_r; lia).
      lia. }
  destruct Hlow as [Hlow Hstrict].
  destruct (Z.eq_dec r E) as [Heq|Hne]; [left; exact Heq|].
  right. split; [lia|].
  destruct (Z.eq_dec y 0) as [Hy|Hy]; [|specialize (Hstrict Hy); lia].
  assert (r = E - 1) by lia. subst r. lia.
Qed.

End Binary64Product.

(** C6 (amended). For [0 <= todosCompleted <= 2^40] and
    [0 <= todosCreated < 2^53], the displayed completion rate is 0 when
    [todosCreated = 0] and is otherwise an integer nearest to the exact
    percentage [100 * todosCompleted / todosCreated]: it is that percentage
    rounded to the nearest integer with a tie going up, or, only when the
    percentage is exactly half-way between two integers, the integer below.
    [Math.round] is applied to the binary64 value of
    [(todosCompleted / todosCreated) * 100], which two roundings can have
    brought just below the half. *)
Theorem completionRate_nearest (a : Analytics) :
  0 <= todosCompleted a <= 2 ^ 40 -> 0 <= todosCreated a < 2 ^ 53 ->
  exists r,
    completionRate a = JS.Int r /\
    (todosCreated a = 0 -> r = 0) /\
    (0 < todosCreated a ->
     (r = exactRate (todosCompleted a) (todosCreated a) \/
      (r = exactRate (todosCompleted a) (todosCreated a) - 1 /\
       200 * todosCompleted a = (2 * r + 1) * todosCreated a)) /\
     2 * r * todosCreated a - todosCreated a
       <= 200 * todosCompleted a
       <= 2 * r * todosCreated a + todosCreated a).
Proof.
  intros Hc Ht. unfold completionRate, exactRate.
  set (c := todosCompleted a) in *. set (t := todosCreated a) in *.
  destruct (Z.gtb_spec t 0) as [Hpos|Hzero].
  2:{ exists 0. split; [reflexivity|]. split; [reflexivity|]. lia. }
  assert (Hnear : forall r,
            r = (200 * c + t) / (2 * t) \/
            (r = (200 * c + t) / (2 * t) - 1 /\ 200 * c = (2 * r + 1) * t) ->
            2 * r * t - t <= 200 * c <= 2 * r * t + t).
  { intros r Hr.
    pose proof (Z.div_mod (200 * c + t) (2 * t) ltac:(lia)) as HE.
    pose proof (Z.mod_pos_bound (200 * c + t) (2 * t) ltac:(lia)) as HEm.
    destruct Hr as [->|[_ Htie]]; nia. }
  destruct (Z.eq_dec c 0) as [Hc0|Hc0].
  - exists 0. rewrite Hc0.
    destruct (num_normal t ltac:(lia)) as (mt & et & -> & _).
    split; [reflexivity|]. split; [reflexivity|]. intros _.
    assert (Hrate : 0 = (200 * 0 + t) / (2 * t))
      by (symmetry; apply Z.div_small; lia).
    split; [left; exact Hrate|]. lia.
  - destruct (div_num_error c t) as (m1 & e1 & e & -> & Hm1 & He & He1 & Herr & Hmag);
      [change (2 ^ 53) with 9007199254740992;
       change (2 ^ 40) with 1099511627776 in Hc; lia | lia |].
    assert (HP : 0 < 2 ^ (- e)) by (apply Z.pow_pos_nonneg; lia).
    assert (He12 : e <= -12).
    { assert (Hbig : 2 ^ 12 <= 2 ^ (- e)).
      { change (2 ^ 12) with 4096. change (2 ^ 52) with 4503599627370496 in Hmag.
        change (2 ^ 40) with 1099511627776 in Hc. nia. }
      apply (Z.pow_le_mono_r_iff 2) in Hbig; lia. }
    destruct (mul_100_error m1 e1 Hm1) as (m3 & e3 & n & -> & Hn & He3 & Hm3 & HPm & HU);
      [lia|].
    set (eF := e1 - 46 + n) in *.
    rewrite (Math_round_scaled m3 e3 eF (Zpos m3 * 2 ^ (e3 - eF)))
      by (unfold eF; lia || reflexivity).
    set (U := Zpos m3 * 2 ^ (e3 - eF)) in *. set (K := 2 ^ (- eF)).
    assert (HK : 0 < K) by (apply Z.pow_pos_nonneg; unfold eF; lia).
    assert (HS : 0 < 2 ^ n) by (apply Z.pow_pos_nonneg; lia).
    assert (HT : 0 < 2 ^ (e1 - e)) by (apply Z.pow_pos_nonneg; lia).
    assert (Hunits : K * 2 ^ n * 2 ^ (e1 - e) = 2 ^ 46 * 2 ^ (- e)).
    { unfold K, eF. rewrite <- !Z.pow_add_r by lia. f_equal. lia. }
    assert (Hbound : - K < 2 * (t * U - 100 * c * K) < K).
    { apply (rate_error_bound c t (2 ^ (- e)) (Zpos m1 * 2 ^ (e1 - e))
               (2 ^ (e1 - e)) (Zpos m1) (2 ^ n) U K);
        try assumption; try lia; try reflexivity. }
    pose proof (round_near_fraction c t U K ltac:(lia) Hpos HK Hbound) as Hround.
    cbv zeta in Hround.
    exists ((2 * U + K) / (2 * K)). split; [reflexivity|].
    split; [lia|]. intros _. split; [exact Hround|].
    apply Hnear. exact Hround.
Qed.

Lemma completionRate_nearest_witness :
  exists r,
    completionRate (withTasks 23 40) = JS.Int r /\
    (r = exactRate 23 40 \/
     (r = exactRate 23 40 - 1 /\ 200 * 23 = (2 * r + 1) * 40)) /\
    2 * r * 40 - 40 <= 200 * 23 <= 2 * r * 40 + 40.
Proof.
  destruct (completionRate_nearest (withTasks 23 40)) as (r & Hr & _ & Hnear).
  - cbn. lia.
  - cbn. lia.
  - exists r. split; [exact Hr|]. apply Hnear. cbn. lia.
Defined.

(** C6 as stated fails on a percentage that is exactly half-way between two
    integers: 23 tasks completed out of 40 are 57.5 percent, which rounds to
    58, and the screen shows 57. *)
Lemma completionRate_counterexample :
  200 * 23 = (2 * 57 + 1) * 40 /\
  exactRate 23 40 = 58 /\
  completionRate (withTasks 23 40) = JS.Int 57 /\
  completionRate (withTasks 23 40) <> JS.Int (exactRate 23 40).
Proof.
  vm_compute. repeat split; discriminate.
Qed.
